(* ===== verification/_CoqProject ===== *)
-Q . S2P
Prelude.v
CString.v
InputEvent.v
Reader.v
ReadLoop.v
Locator.v
Main.v
