(* ===== verification/Prelude.v ===== *)
(** * OpenReader touch reader: a verification development

    ** The program

    src/openReader/src/touch_reader.c (151 lines of C) is a one-shot helper
    for a Kindle: it prints the first touch position as ["x,y\n"] on
    stdout and exits.  It has three parts, run in sequence:
    - [find_touch_device] (lines 25-65), the device locator: when no path
      is given it opens /dev/input/event0..2 in turn, asks each its name
      (ioctl EVIOCGNAME into [char name[256]]) and picks the first whose
      name contains "touch", "Touch", "touchscreen" or "elan"; otherwise
      /dev/input/event1.  It always returns 0.
    - [read_touch_events] (lines 68-134), the event reader: it opens the
      path, prints a banner on stderr, installs a SIGINT/SIGTERM handler
      that clears the [volatile int running] flag (lines 18-22, 84-85),
      and loops [while (running)]: [read] one [struct input_event]; on
      EINTR retry, on another error break, on a short read retry; store
      EV_ABS X/Y values (legacy or multi-touch codes) and the BTN_TOUCH
      state; on EV_SYN/SYN_REPORT with both coordinates non-negative print
      them, close the descriptor and return 0.  Leaving the loop closes the
      descriptor and returns 0 as well.
    - [main] (lines 136-151): [argv[1]] or the located path, copied into
      [char device_path[256]] with [snprintf], then [read_touch_events].
    The two components share only the path string.

    ** The files

    - Prelude.v (this file): the [reader_scope] notation scope, the
      [reader] hint database, the tactics [split_Zb], [destruct_ifs] and
      [invc], machine-integer facts ([swrap] reinterprets the low bits of
      an integer as two's complement, as reading a signed field does), and
      the reflexive-transitive closure [star] with its invariant lemma.
    - CString.v, Module [CStr]: the C library calls the code makes:
      [strstr] (first-occurrence offset, proved against a declarative
      [occurs_at]), [contains], [snprintf_s] (["%s"] into a sized buffer),
      [c_string_of_buffer] (reading a NUL-terminated array, [None] when
      the array has no NUL), and [coord_line], the ["%d,%d\n"] output,
      with a reader [parse_coord_line] for the round trip.
    - InputEvent.v, Module [Ev]: the linux/input.h constants, the record
      [input_event] with its fields as Z, the ABI class [Abi] (the size of
      [long]: 4 on the 32-bit ARM target, 8 on LP64), the little-endian
      layout ([decode_event] is what [read(fd, &ev, sizeof(ev))] stores,
      [encode_event] what the kernel writes), using coqutil's
      [le_combine]/[le_split].
    - Reader.v, Module [Touch]: [touch_state] (lines 71-73), the if-chain
      [process_event] (lines 103-129) and [run_events], the loop fed only
      full records.  The abstract specification [first_frame] describes
      the output by the last X/Y values before the first SYN_REPORT at
      which both are known.
    - ReadLoop.v, Module [Loop]: [read_touch_events] whole, as a transition
      relation [step] over [config] (program point [pc], [running],
      handlers installed, touch state, descriptor open, stdout, stderr).
      The environment's moves are the result of [open], the result of each
      [read] and the delivery of a signal at any point; the Section
      variable [sa_restart] selects BSD ([SA_RESTART], glibc's [signal()])
      or System V signal semantics.  [exec] is an executable scheduler
      whose runs are [step] sequences ([exec_star], [exec1_step]).
    - Locator.v, Module [Locate]: [find_touch_device] as [probe] over the
      candidate list, in a [world] mapping paths to devices, with the
      descriptor set ([gset Z]) and the stack array [name] threaded
      through the iterations; the kernel's EVIOCGNAME copy is
      [ioctl_name].  [locate_spec] is the spec's contract.
    - Main.v, Module [Main]: the [Locator] class, the interface main
      relies on, with the instance [touch_locator] built from
      [find_touch_device]; [main_start] (lines 136-148) against that
      interface; and the spec's section-8 scenarios run by [vm_compute].

    ** What the theorems show

    - Functional correctness and refinement: [run_events] implements
      [first_frame] (C1) and waits with the "last value" summary otherwise
      (C7); the loop of ReadLoop.v simulates [run_events] on full reads
      (C3); [find_touch_device] returns the first touch-named candidate or
      the default and leaks no descriptor (C5).
    - Invariants of every reachable configuration, by rule induction on
      [step]: at most one stdout line, printed only with both coordinates
      non-negative, and only on a return of 0 with the descriptor closed
      (C2); exit status 1 only after a failed open (C4).
    - Equivalences: the button state never changes the output (C6); the
      "touchscreen" test is redundant (C19).
    - Round trips and bounds: the stdout line parses back (C14); the event
      record decodes/encodes exactly and its fields stay in their C types
      (C15-C17); printed values fit [__s32] and are non-negative (C18); the
      path main passes fits its buffer (C21); main never takes its failure
      exit in any world, and reaches the loop when the device names fit
      (C20).
    - Signals, errors and progress: with System V semantics a signal in a
      blocked read ends the run (C11); with SA_RESTART it does not, and a
      later frame is still printed (C8); a signal between the loop test and
      [read] leaves the process blocked (C12); end of file makes the loop
      spin forever (C13); a read error returns 0, not a failure status
      (C9); a device name of 256 characters or more makes [strstr] read
      past [name] (C10).

    ** Bounds and fuel

    No definition uses fuel: [strstr], [probe], [run_events] and [exec]
    recurse structurally on their string or list; non-termination of the
    C loop is represented by [step] sequences that can be extended forever
    (C13), not by a bounded interpreter.  Integers are Z with the C
    widths written out: [__s32] values are read through [swrap32], [__u16]
    fields through 16-bit little-endian decoding; witnesses run on the
    32-bit ARM layout (16-byte records), and C17 on LP64 (24 bytes).

    ** Not modelled

    The text of the stderr diagnostics (they are kept as constructors of
    [diag]); [strerror]; the time fields' meaning (they are decoded but
    never read by the code); the lowest-free-number rule of [open] (a
    descriptor not in use is chosen, which is all the code relies on); the
    installation of the two handlers as one step (a signal between the two
    [signal] calls is not distinguished); the System V reset of a handler to
    SIG_DFL after its first delivery (a second signal would then kill the
    process; no theorem depends on it); stdout buffering beyond the
    [fflush] that follows the one [printf].

    ** Plan for the next steps

    1. One transition system for the whole process: main's choice of path
       followed by the loop of ReadLoop.v, with the process exit status
       (main returns read_touch_events' value) and an end-to-end theorem
       per scenario of the spec's section 8.
    2. The two [signal] calls as two steps (a SIGTERM between them kills
       the process), and the reachable states under arbitrary signal
       timing classified (printed, returned 0 silently, killed, blocked).
    3. Negative coordinates: a device reporting a negative X or Y is
       treated as "unknown" by the [>= 0] tests (the sentinel is only -1
       by convention); a theorem characterising the frames this drops.
    4. The button value: BTN_TOUCH autorepeat (value 2) and its effect,
       none by C6, made explicit on concrete streams.
    5. More of the C library: [snprintf]'s return value and the [strstr]
       model against a naive quadratic reference. *)

From Stdlib Require Import ZArith List String Ascii Lia.
From stdpp Require Import base decidable list.

(** This file holds what the component files share: the notation scope,
    the hint database, the proof tactics, and the integer-width facts of
    the C types the program uses ([int], [__s32], [__u16]). *)

Declare Scope reader_scope.
Delimit Scope reader_scope with reader.

Create HintDb reader discriminated.

(** ** Machine integers *)

Local Open Scope Z_scope.

(** [int] and [__s32] on every Linux ABI the program targets are 32-bit
    two's complement; [__u16] is 16-bit unsigned. *)
Definition s32_min : Z := - 2 ^ 31.
Definition s32_max : Z := 2 ^ 31 - 1.
Definition u16_max : Z := 2 ^ 16 - 1.

Definition in_s32 (z : Z) : bool := (s32_min <=? z) && (z <=? s32_max).
Definition in_u16 (z : Z) : bool := (0 <=? z) && (z <=? u16_max).

(** Reinterpretation of the low [w] bits of [z] as a two's complement
    integer, the way a signed field is read from the bytes the kernel
    wrote. *)
Definition swrap (w z : Z) : Z := (z + 2 ^ (w - 1)) mod 2 ^ w - 2 ^ (w - 1).

Definition swrap32 (z : Z) : Z := swrap 32 z.

Lemma in_s32_iff z : in_s32 z = true <-> s32_min <= z <= s32_max.
Proof.
  unfold in_s32. rewrite andb_true_iff, !Z.leb_le. tauto.
Qed.

Lemma in_u16_iff z : in_u16 z = true <-> 0 <= z <= u16_max.
Proof.
  unfold in_u16. rewrite andb_true_iff, !Z.leb_le. tauto.
Qed.

Lemma pow2_split w : 0 < w -> 2 ^ w = 2 * 2 ^ (w - 1).
Proof.
  intros Hw. rewrite <- Z.pow_succ_r by lia. f_equal. lia.
Qed.

Lemma swrap_range w z : 0 < w -> - 2 ^ (w - 1) <= swrap w z < 2 ^ (w - 1).
Proof.
  intros Hw. unfold swrap. pose proof (pow2_split w Hw).
  pose proof (Z.mod_pos_bound (z + 2 ^ (w - 1)) (2 ^ w) ltac:(lia)). lia.
Qed.

Lemma swrap_small w z : 0 < w -> - 2 ^ (w - 1) <= z < 2 ^ (w - 1) -> swrap w z = z.
Proof.
  intros Hw H. unfold swrap. pose proof (pow2_split w Hw).
  rewrite Z.mod_small by lia. lia.
Qed.

Lemma swrap_mod w z : 0 < w -> swrap w (z mod 2 ^ w) = swrap w z.
Proof.
  intros Hw. unfold swrap. rewrite Z.add_mod_idemp_l by lia. reflexivity.
Qed.

(** The low [w] bits are unchanged by the reinterpretation. *)
Lemma swrap_mod_same w z : 0 < w -> swrap w z mod 2 ^ w = z mod 2 ^ w.
Proof.
  intros Hw. unfold swrap. pose proof (pow2_split w Hw).
  rewrite Zminus_mod_idemp_l, Z.add_simpl_r. reflexivity.
Qed.

Lemma swrap32_range z : s32_min <= swrap32 z <= s32_max.
Proof.
  pose proof (swrap_range 32 z ltac:(lia)). unfold s32_min, s32_max, swrap32. lia.
Qed.

Lemma swrap32_small z : s32_min <= z <= s32_max -> swrap32 z = z.
Proof.
  unfold s32_min, s32_max, swrap32. intros H. apply swrap_small; lia.
Qed.

#[export] Hint Resolve swrap32_range : reader.

(** ** Tactics *)

(** Case analysis on the boolean comparisons the C conditions compile to,
    turning each into its propositional form for [lia]. *)
Ltac split_Zb :=
  repeat match goal with
  | |- context [Z.leb ?a ?b] => destruct (Z.leb_spec a b)
  | |- context [Z.ltb ?a ?b] => destruct (Z.ltb_spec a b)
  | |- context [Z.eqb ?a ?b] => destruct (Z.eqb_spec a b)
  | H : context [Z.leb ?a ?b] |- _ => destruct (Z.leb_spec a b)
  | H : context [Z.ltb ?a ?b] |- _ => destruct (Z.ltb_spec a b)
  | H : context [Z.eqb ?a ?b] |- _ => destruct (Z.eqb_spec a b)
  end.

Ltac invc H := inversion H; subst; clear H.

(** Case analysis on every [if] of the goal, outermost first. *)
Ltac destruct_ifs :=
  repeat match goal with |- context [if ?b then _ else _] => destruct b end.

(** ** Transition sequences *)

Section Star.
Context {A : Type}.
Variable R : A -> A -> Prop.

(** Zero or more transitions. *)
Inductive star : A -> A -> Prop :=
  | star_refl a : star a a
  | star_step a b c : R a b -> star b c -> star a c.

Lemma star_one a b : R a b -> star a b.
Proof. intros H. eapply star_step; [exact H | apply star_refl]. Qed.

Lemma star_trans a b c : star a b -> star b c -> star a c.
Proof. induction 1; eauto using star. Qed.

(** An invariant of [R] holds along every sequence. *)
Lemma star_invariant (P : A -> Prop) :
  (forall a b, P a -> R a b -> P b) -> forall a b, star a b -> P a -> P b.
Proof. intros Hstep a b S. induction S; eauto. Qed.

End Star.

(** [R ^*]: zero or more [R]-transitions. *)
Notation "R ^*" := (star R) (at level 1, format "R ^*") : reader_scope.

#[export] Hint Constructors star : reader.
#[export] Hint Resolve star_one star_trans : reader.
