(* ===== verification/CString.v ===== *)
(** * The C library string functions touch_reader.c relies on

    [strstr] (the touch-name test of find_touch_device), [snprintf] with a
    ["%s"] format into a fixed buffer (device paths), the reading of a
    NUL-terminated buffer filled by the EVIOCGNAME ioctl, and [printf]
    with the ["%d,%d\n"] format (the one line of stdout).  Each is given
    an executable definition and proved against a declarative
    specification. *)

From Stdlib Require Import ZArith List String Ascii Lia DecimalString DecimalZ.
From stdpp Require Import base decidable list.
From S2P Require Import Prelude.

Local Open Scope string_scope.

Module CStr.

(** ** strstr *)

(** [prefixb p s]: the first [strlen p] characters of [s] are [p]. *)
Fixpoint prefixb (p s : string) : bool :=
  match p, s with
  | EmptyString, _ => true
  | String a p', String b s' => Ascii.eqb a b && prefixb p' s'
  | String _ _, EmptyString => false
  end.

(** [strstr hay needle]: the offset of the first occurrence of [needle]
    in [hay], [None] standing for the NULL pointer.  As in C, the empty
    needle occurs at offset 0. *)
Fixpoint strstr (hay needle : string) : option nat :=
  if prefixb needle hay then Some 0
  else match hay with
       | EmptyString => None
       | String _ hay' => option_map S (strstr hay' needle)
       end.

(** [strstr(hay, needle) != NULL] *)
Definition contains (hay needle : string) : bool :=
  match strstr hay needle with Some _ => true | None => false end.

(** The declarative reading: [needle] occurs in [hay] at offset [i]. *)
Definition occurs_at (hay needle : string) (i : nat) : Prop :=
  exists pre post, hay = pre ++ needle ++ post /\ String.length pre = i.

(** ** snprintf(buf, size, "%s", s) *)

(** The string left in the buffer: at most [size - 1] characters of [s]
    followed by the terminating NUL (the code only calls it with
    [size = 256]). *)
Definition snprintf_s (size : nat) (s : string) : string :=
  substring 0 (size - 1) s.

(** ** NUL-terminated buffers *)

(** The C string a [char name[N]] buffer holds: its characters up to the
    first NUL.  [None] when the buffer holds no NUL, where [strstr] would
    read past the end of the array. *)
Fixpoint c_string_of_buffer (buf : list ascii) : option string :=
  match buf with
  | [] => None
  | c :: rest =>
      if Ascii.eqb c zero then Some EmptyString
      else option_map (String c) (c_string_of_buffer rest)
  end.

(** ** printf("%d,%d\n", x, y) *)

(** ["%d"]: optional minus sign and the decimal digits, no leading zero. *)
Definition printf_d (z : Z) : string := NilEmpty.string_of_int (Z.to_int z).

Definition coord_line (x y : Z) : string :=
  printf_d x ++ "," ++ printf_d y ++ String "010" EmptyString.

(** A reader of that line, the way the calling shell script splits it. *)
Fixpoint split_char (c : ascii) (s : string) : option (string * string) :=
  match s with
  | EmptyString => None
  | String a s' =>
      if Ascii.eqb a c then Some (EmptyString, s')
      else option_map (fun '(l, r) => (String a l, r)) (split_char c s')
  end.

Definition parse_coord_line (s : string) : option (Z * Z) :=
  match split_char "," s with
  | Some (a, rest) =>
      match split_char "010" rest with
      | Some (b, EmptyString) =>
          match NilEmpty.int_of_string a, NilEmpty.int_of_string b with
          | Some x, Some y => Some (Z.of_int x, Z.of_int y)
          | _, _ => None
          end
      | _ => None
      end
  | None => None
  end.

Fixpoint str_forall (f : ascii -> bool) (s : string) : bool :=
  match s with
  | EmptyString => true
  | String a s' => f a && str_forall f s'
  end.

Definition is_dec_char (a : ascii) : bool :=
  Ascii.eqb a "-" || ((48 <=? nat_of_ascii a)%nat && (nat_of_ascii a <=? 57)%nat).

(** ** Lemmas: strstr *)

Lemma prefixb_spec p s : prefixb p s = true <-> exists t, s = p ++ t.
Proof.
  revert s. induction p as [|a p IH]; intros [|b s]; simpl.
  - split; eauto.
  - split; eauto.
  - split; [discriminate|]. intros [t E]. discriminate.
  - rewrite andb_true_iff, Ascii.eqb_eq, IH. split.
    + intros [-> [t ->]]. eauto.
    + intros [t E]. injection E as -> ->. eauto.
Qed.

Lemma occurs_at_0 hay needle : occurs_at hay needle 0 <-> prefixb needle hay = true.
Proof.
  rewrite prefixb_spec. split.
  - intros (pre & post & -> & L). destruct pre; [eauto | discriminate].
  - intros [t ->]. exists EmptyString, t. auto.
Qed.

Lemma occurs_at_S c hay needle j :
  occurs_at (String c hay) needle (S j) <-> occurs_at hay needle j.
Proof.
  split.
  - intros ([|c' pre] & post & E & L); [discriminate|].
    injection E as _ E. injection L as L. exists pre, post. auto.
  - intros (pre & post & -> & <-). exists (String c pre), post. auto.
Qed.

Lemma occurs_at_nil needle i : occurs_at EmptyString needle i -> i = 0 /\ needle = EmptyString.
Proof.
  intros ([|c pre] & post & E & L); [|discriminate].
  destruct needle; [auto | discriminate].
Qed.

(** [strstr] returns exactly the offset of the first occurrence. *)
Lemma strstr_some hay needle i :
  strstr hay needle = Some i <->
  occurs_at hay needle i /\ (forall j, j < i -> ~ occurs_at hay needle j).
Proof.
  revert i. induction hay as [|c hay IH]; intros i; simpl;
    destruct (prefixb needle _) eqn:P.
  - split; [intros [= <-]; split; [apply occurs_at_0; auto | lia]|].
    intros [_ F]. destruct i; [auto|]. exfalso. apply (F 0); [lia|]. apply occurs_at_0; auto.
  - split; [discriminate|]. intros [O _]. apply occurs_at_nil in O as [-> ->]. discriminate.
  - split; [intros [= <-]; split; [apply occurs_at_0; auto | lia]|].
    intros [_ F]. destruct i; [auto|]. exfalso. apply (F 0); [lia|]. apply occurs_at_0; auto.
  - destruct i as [|k].
    + split; [destruct (strstr hay needle); discriminate|].
      intros [O _]. apply occurs_at_0 in O. congruence.
    + rewrite occurs_at_S.
      transitivity (strstr hay needle = Some k).
      { destruct (strstr hay needle); simpl; split; intros E; inversion E; reflexivity. }
      rewrite IH. split; intros [O F]; split; auto.
      * intros [|j] Hj; [rewrite occurs_at_0; congruence|].
        rewrite occurs_at_S. apply F. lia.
      * intros j Hj. rewrite <- (occurs_at_S c). apply F. lia.
Qed.

Lemma strstr_complete hay needle i :
  occurs_at hay needle i -> exists k, k <= i /\ strstr hay needle = Some k.
Proof.
  revert i. induction hay as [|c hay IH]; intros i O; simpl;
    destruct (prefixb needle _) eqn:P; try (exists 0; split; [lia | reflexivity]).
  - apply occurs_at_nil in O as [-> ->]. discriminate.
  - destruct i as [|i]; [apply occurs_at_0 in O; congruence|].
    apply occurs_at_S, IH in O as (k & Hk & ->). exists (S k). split; [lia | reflexivity].
Qed.

Lemma contains_spec hay needle :
  contains hay needle = true <-> exists pre post, hay = pre ++ needle ++ post.
Proof.
  unfold contains. split.
  - destruct (strstr hay needle) as [i|] eqn:E; [|discriminate]. intros _.
    apply strstr_some in E as [(pre & post & ? & _) _]. eauto.
  - intros (pre & post & E).
    destruct (strstr_complete hay needle (String.length pre)) as (k & _ & ->); [|reflexivity].
    exists pre, post. auto.
Qed.

Lemma string_app_assoc (a b c : string) : (a ++ b) ++ c = a ++ b ++ c.
Proof. induction a; simpl; congruence. Qed.

(** A string containing [n1 ++ n2] contains [n1]. *)
Lemma contains_app_l hay n1 n2 :
  contains hay (n1 ++ n2) = true -> contains hay n1 = true.
Proof.
  rewrite !contains_spec. intros (pre & post & ->).
  exists pre, (n2 ++ post). rewrite string_app_assoc. reflexivity.
Qed.

#[export] Hint Resolve contains_app_l : reader.

(** ** Lemmas: snprintf *)

Lemma substring0_length m s : String.length (substring 0 m s) = Nat.min m (String.length s).
Proof.
  revert m. induction s as [|c s IH]; intros [|m]; simpl; auto.
Qed.

Lemma substring0_full m s : String.length s <= m -> substring 0 m s = s.
Proof.
  revert m. induction s as [|c s IH]; intros [|m] H; simpl in *; auto; [lia|].
  rewrite IH by lia. reflexivity.
Qed.

Lemma substring0_prefix m s : exists t, s = substring 0 m s ++ t.
Proof.
  revert m. induction s as [|c s IH]; intros [|m]; simpl; eauto.
  destruct (IH m) as [t E]. exists t. simpl. congruence.
Qed.

(** ** Lemmas: NUL-terminated buffers *)

Lemma c_string_of_buffer_app s rest :
  str_forall (fun a => negb (Ascii.eqb a zero)) s = true ->
  c_string_of_buffer (list_ascii_of_string s ++ zero :: rest) = Some s.
Proof.
  induction s as [|c s IH]; simpl; [reflexivity|].
  rewrite andb_true_iff, negb_true_iff. intros [-> H]. rewrite IH by exact H. reflexivity.
Qed.

Lemma c_string_of_buffer_no_nul buf :
  Forall (fun a => a <> zero) buf -> c_string_of_buffer buf = None.
Proof.
  induction 1 as [|c buf Hc _ IH]; simpl; [reflexivity|].
  destruct (Ascii.eqb_spec c zero); [contradiction|]. rewrite IH. reflexivity.
Qed.

Lemma length_list_ascii_of_string s : length (list_ascii_of_string s) = String.length s.
Proof. induction s; simpl; auto. Qed.

Lemma str_forall_Forall s :
  str_forall (fun a => negb (Ascii.eqb a zero)) s = true ->
  Forall (fun a => a <> zero) (list_ascii_of_string s).
Proof.
  induction s as [|c s IH]; simpl; [constructor|].
  rewrite andb_true_iff, negb_true_iff. intros [Hc H]. constructor; [|auto].
  intros ->. rewrite Ascii.eqb_refl in Hc. discriminate.
Qed.

(** ** Lemmas: the stdout line *)

Lemma string_of_uint_dec d : str_forall is_dec_char (NilEmpty.string_of_uint d) = true.
Proof. induction d; simpl; auto. Qed.

Lemma printf_d_dec z : str_forall is_dec_char (printf_d z) = true.
Proof.
  unfold printf_d. destruct (Z.to_int z); simpl; rewrite string_of_uint_dec; reflexivity.
Qed.

Lemma str_forall_impl (f g : ascii -> bool) s :
  (forall a, f a = true -> g a = true) -> str_forall f s = true -> str_forall g s = true.
Proof.
  intros Hfg. induction s; simpl; auto. rewrite !andb_true_iff. intuition auto.
Qed.

Lemma split_char_app c s1 s2 :
  str_forall (fun a => negb (Ascii.eqb a c)) s1 = true ->
  split_char c (s1 ++ String c s2) = Some (s1, s2).
Proof.
  induction s1 as [|a s1 IH]; simpl.
  - rewrite Ascii.eqb_refl. reflexivity.
  - rewrite andb_true_iff, negb_true_iff. intros [-> H]. rewrite IH by exact H. reflexivity.
Qed.

Lemma printf_d_avoid c z :
  is_dec_char c = false -> str_forall (fun a => negb (Ascii.eqb a c)) (printf_d z) = true.
Proof.
  intros Hc. apply (str_forall_impl is_dec_char); [|apply printf_d_dec].
  intros a Ha. apply negb_true_iff. destruct (Ascii.eqb_spec a c); congruence.
Qed.

Lemma printf_d_parse z : option_map Z.of_int (NilEmpty.int_of_string (printf_d z)) = Some z.
Proof. unfold printf_d. rewrite NilEmpty.isi. simpl. rewrite DecimalZ.of_to. reflexivity. Qed.

(** ** Theorems *)

(** C14: the stdout line ["x,y\n"] printed with ["%d,%d\n"] determines the
    coordinates: splitting it at the comma and the newline and reading
    both fields as decimal integers gives back [(x, y)]. *)
Theorem coord_line_roundtrip x y : parse_coord_line (coord_line x y) = Some (x, y).
Proof.
  unfold parse_coord_line, coord_line. cbn [append].
  rewrite split_char_app by (apply printf_d_avoid; reflexivity).
  rewrite split_char_app by (apply printf_d_avoid; reflexivity).
  pose proof (printf_d_parse x) as Px. pose proof (printf_d_parse y) as Py.
  destruct (NilEmpty.int_of_string (printf_d x)), (NilEmpty.int_of_string (printf_d y));
    simpl in *; congruence.
Qed.

(** [snprintf(buf, size, "%s", s)] leaves a prefix of [s] of at most
    [size - 1] characters, and [s] itself when it fits. *)
Lemma snprintf_s_spec size s :
  (String.length (snprintf_s size s) <= size - 1)%nat /\
  (exists t, s = snprintf_s size s ++ t) /\
  ((String.length s < size)%nat -> snprintf_s size s = s).
Proof.
  unfold snprintf_s. split; [rewrite substring0_length; lia|]. split.
  - apply substring0_prefix.
  - intros H. apply substring0_full. lia.
Qed.

End CStr.
