(* ===== verification/InputEvent.v ===== *)
(** * linux/input.h: the event record the reader consumes

    [struct input_event] as the program reads it with
    [read(fd, &ev, sizeof(ev))] (touch_reader.c, lines 70 and 88): a
    [struct timeval] (two [long]s), a [__u16 type], a [__u16 code] and a
    [__s32 value], laid out little-endian as on the ARM Kindle the program
    is cross-compiled for.  The width of [long] is a parameter ([Abi]):
    4 bytes on 32-bit ARM (a 16-byte record), 8 bytes on LP64 (24 bytes).

    The constants are those of the kernel header, which is not part of the
    repository. *)

From Stdlib Require Import ZArith List Lia.
From coqutil Require Import Byte Word.LittleEndianList.
From stdpp Require Import base decidable.
From S2P Require Import Prelude.

Open Scope Z_scope.

Module Ev.

(** ** Event types and codes used by touch_reader.c *)

Definition EV_SYN : Z := 0x00.
Definition EV_KEY : Z := 0x01.
Definition EV_ABS : Z := 0x03.

Definition SYN_REPORT : Z := 0.

Definition ABS_X : Z := 0x00.
Definition ABS_Y : Z := 0x01.
Definition ABS_MT_POSITION_X : Z := 0x35.
Definition ABS_MT_POSITION_Y : Z := 0x36.

Definition BTN_TOUCH : Z := 0x14a.

(** ** The record *)

Record input_event := mk_event {
  ev_sec : Z;     (** [time.tv_sec], a [long] *)
  ev_usec : Z;    (** [time.tv_usec], a [long] *)
  ev_type : Z;    (** [__u16 type] *)
  ev_code : Z;    (** [__u16 code] *)
  ev_value : Z    (** [__s32 value] *)
}.

#[export] Instance input_event_eq_dec : EqDecision input_event.
Proof. solve_decision. Defined.

(** The ABI: the size of [long]. *)
Class Abi := {
  long_bytes : nat;
  long_bytes_cases : long_bytes = 4%nat \/ long_bytes = 8%nat
}.

Definition abi_arm32 : Abi := {| long_bytes := 4; long_bytes_cases := or_introl eq_refl |}.
Definition abi_lp64 : Abi := {| long_bytes := 8; long_bytes_cases := or_intror eq_refl |}.

Section Layout.
Context {abi : Abi}.

Definition long_bits : Z := 8 * Z.of_nat long_bytes.

(** [sizeof(struct input_event)] *)
Definition sizeof_input_event : nat := 2 * long_bytes + 8.

(** The values every field can hold. *)
Definition wf_event (ev : input_event) : bool :=
  let in_long z := (- 2 ^ (long_bits - 1) <=? z) && (z <? 2 ^ (long_bits - 1)) in
  in_long (ev_sec ev) && in_long (ev_usec ev) &&
  in_u16 (ev_type ev) && in_u16 (ev_code ev) && in_s32 (ev_value ev).

(** One little-endian field of [n] bytes and the bytes after it. *)
Definition field (n : nat) (bs : list byte) : Z * list byte :=
  (le_combine (firstn n bs), skipn n bs).

(** The record the [read] fills from the bytes the kernel delivered. *)
Definition decode_event (bs : list byte) : option input_event :=
  if Nat.eqb (length bs) sizeof_input_event then
    let '(sec, r1) := field long_bytes bs in
    let '(usec, r2) := field long_bytes r1 in
    let '(ty, r3) := field 2 r2 in
    let '(code, r4) := field 2 r3 in
    let '(value, _) := field 4 r4 in
    Some (mk_event (swrap long_bits sec) (swrap long_bits usec) ty code (swrap32 value))
  else None.

(** The bytes the kernel writes for an event. *)
Definition encode_event (ev : input_event) : list byte :=
  le_split long_bytes (ev_sec ev) ++ le_split long_bytes (ev_usec ev) ++
  le_split 2 (ev_type ev) ++ le_split 2 (ev_code ev) ++ le_split 4 (ev_value ev).

(** ** Lemmas *)

Lemma long_bits_pos : 0 < long_bits.
Proof. unfold long_bits. destruct long_bytes_cases as [-> | ->]; reflexivity. Qed.

Lemma field_le_split n z rest :
  field n (le_split n z ++ rest) = (z mod 2 ^ (Z.of_nat n * 8), rest).
Proof.
  unfold field. rewrite firstn_app, skipn_app, length_le_split, Nat.sub_diag.
  rewrite firstn_all2, skipn_all2 by (rewrite length_le_split; lia).
  rewrite app_nil_r. simpl. rewrite le_combine_split. reflexivity.
Qed.

Lemma field_split n bs :
  (n <= length bs)%nat -> bs = le_split n (fst (field n bs)) ++ snd (field n bs).
Proof.
  intros H. unfold field. simpl. rewrite split_le_combine'.
  - symmetry. apply firstn_skipn.
  - rewrite length_firstn. lia.
Qed.

Lemma length_field n bs : length (snd (field n bs)) = (length bs - n)%nat.
Proof. unfold field. simpl. apply length_skipn. Qed.

Lemma le_split_swrap n w z :
  w = Z.of_nat n * 8 -> 0 < w -> le_split n (swrap w z) = le_split n z.
Proof.
  intros -> Hw. rewrite le_split_mod, swrap_mod_same, <- le_split_mod by lia. reflexivity.
Qed.

Lemma field_le_split_nil n z : field n (le_split n z) = (z mod 2 ^ (Z.of_nat n * 8), []).
Proof. rewrite <- (app_nil_r (le_split n z)). apply field_le_split. Qed.

Lemma field_eq n bs z r :
  field n bs = (z, r) -> (n <= length bs)%nat ->
  bs = le_split n z ++ r /\ length r = (length bs - n)%nat.
Proof.
  intros F H. pose proof (field_split n bs H) as E. pose proof (length_field n bs) as L.
  rewrite F in E, L. auto.
Qed.

Lemma field_bound n bs : 0 <= fst (field n bs) < 2 ^ (8 * Z.of_nat n).
Proof.
  unfold field. simpl. pose proof (le_combine_bound (firstn n bs)) as B.
  rewrite length_firstn in B.
  assert (2 ^ (8 * Z.of_nat (Nat.min n (length bs))) <= 2 ^ (8 * Z.of_nat n)); [|lia].
  apply Z.pow_le_mono_r; lia.
Qed.

Lemma length_encode_event ev : length (encode_event ev) = sizeof_input_event.
Proof.
  unfold encode_event, sizeof_input_event. rewrite !length_app, !length_le_split. lia.
Qed.

(** ** Theorems *)

(** The kernel's bytes for a well-formed record decode to it. *)
Lemma decode_of_encode ev : wf_event ev = true -> decode_event (encode_event ev) = Some ev.
Proof.
  destruct ev as [sec usec ty code value]. unfold wf_event. cbn [ev_sec ev_usec ev_type ev_code ev_value].
  rewrite !andb_true_iff, !Z.leb_le, !Z.ltb_lt, !in_u16_iff, in_s32_iff.
  intros [[[[[S1 S2] [U1 U2]] T] C] V].
  unfold decode_event. rewrite length_encode_event, Nat.eqb_refl.
  unfold encode_event. cbn [ev_sec ev_usec ev_type ev_code ev_value].
  rewrite !field_le_split, field_le_split_nil.
  pose proof long_bits_pos.
  assert (Z.of_nat long_bytes * 8 = long_bits) as -> by (unfold long_bits; lia).
  change (Z.of_nat 2 * 8) with 16. change (Z.of_nat 4 * 8) with 32.
  unfold swrap32. rewrite !swrap_mod by lia. fold (swrap32 value).
  rewrite swrap32_small by lia. rewrite !swrap_small by lia.
  unfold u16_max in *. rewrite !(Z.mod_small _ (2 ^ 16)) by lia. reflexivity.
Qed.

(** C15: decoding the bytes the kernel writes for a well-formed event gives
    that event back: [read(fd, &ev, sizeof(ev))] sees exactly the record
    the input subsystem produced. *)
Theorem decode_encode ev : wf_event ev = true -> decode_event (encode_event ev) = Some ev.
Proof. apply decode_of_encode. Qed.

(** C16: every record [decode_event] accepts is the encoding of what it
    decodes to: no two byte strings of the record's size decode to the
    same event. *)
Theorem encode_decode bs ev : decode_event bs = Some ev -> encode_event ev = bs.
Proof.
  unfold decode_event, sizeof_input_event.
  destruct (Nat.eqb_spec (length bs) (2 * long_bytes + 8)) as [L|]; [|discriminate].
  destruct (field long_bytes bs) as [sec r1] eqn:F1.
  destruct (field long_bytes r1) as [usec r2] eqn:F2.
  destruct (field 2 r2) as [ty r3] eqn:F3.
  destruct (field 2 r3) as [code r4] eqn:F4.
  destruct (field 4 r4) as [value r5] eqn:F5.
  intros [= <-].
  apply field_eq in F1 as [E1 L1]; [|lia]. apply field_eq in F2 as [E2 L2]; [|lia].
  apply field_eq in F3 as [E3 L3]; [|lia]. apply field_eq in F4 as [E4 L4]; [|lia].
  apply field_eq in F5 as [E5 L5]; [|lia].
  destruct r5; [|simpl in L5; lia].
  pose proof long_bits_pos.
  unfold encode_event. cbn [ev_sec ev_usec ev_type ev_code ev_value]. unfold swrap32.
  rewrite !le_split_swrap by (unfold long_bits in *; lia).
  subst. rewrite app_nil_r. reflexivity.
Qed.

(** C17: the fields of a decoded record stay within their C types:
    [long] times, [__u16] type and code, [__s32] value. *)
Theorem decode_wf bs ev : decode_event bs = Some ev -> wf_event ev = true.
Proof.
  unfold decode_event. destruct (Nat.eqb _ _); [|discriminate].
  pose proof long_bits_pos.
  pose proof (field_bound 2 (snd (field long_bytes (snd (field long_bytes bs))))) as B3.
  pose proof (field_bound 2 (snd (field 2 (snd (field long_bytes (snd (field long_bytes bs))))))) as B4.
  unfold field in *. cbn [fst snd] in *. intros [= <-].
  unfold wf_event. cbn [ev_sec ev_usec ev_type ev_code ev_value].
  rewrite !andb_true_iff, !Z.leb_le, !Z.ltb_lt, !in_u16_iff, in_s32_iff.
  pose proof (swrap32_range (le_combine (firstn 4 (skipn 2 (skipn 2 (skipn long_bytes
    (skipn long_bytes bs))))))).
  pose proof (swrap_range long_bits (le_combine (firstn long_bytes bs)) ltac:(lia)).
  pose proof (swrap_range long_bits (le_combine (firstn long_bytes (skipn long_bytes bs))) ltac:(lia)).
  unfold u16_max. change (8 * Z.of_nat 2) with 16 in *. lia.
Qed.

End Layout.

(** ** Witnesses, on the 32-bit ARM layout *)

(** ABS_MT_POSITION_X = 540 at t = 1700000000.250000 s *)
Definition sample_event : input_event := mk_event 1700000000 250000 EV_ABS ABS_MT_POSITION_X 540.

Lemma decode_encode_witness :
  @wf_event abi_arm32 sample_event = true /\
  @decode_event abi_arm32 (@encode_event abi_arm32 sample_event) = Some sample_event.
Proof.
  split; [vm_compute; reflexivity|].
  apply (@decode_encode abi_arm32). vm_compute. reflexivity.
Defined.

Lemma encode_decode_witness :
  @decode_event abi_arm32 (@encode_event abi_arm32 sample_event) = Some sample_event /\
  @encode_event abi_arm32 sample_event = @encode_event abi_arm32 sample_event.
Proof.
  split; [vm_compute; reflexivity|].
  apply (@encode_decode abi_arm32). vm_compute. reflexivity.
Defined.

Lemma decode_wf_witness :
  @decode_event abi_lp64 (@encode_event abi_lp64 sample_event) = Some sample_event /\
  @wf_event abi_lp64 sample_event = true.
Proof.
  split; [vm_compute; reflexivity|].
  apply (@decode_wf abi_lp64 (@encode_event abi_lp64 sample_event)). vm_compute. reflexivity.
Defined.

End Ev.
