(* ===== verification/Reader.v ===== *)
(** * The touch state and the per-event logic of read_touch_events

    touch_reader.c keeps three [int]s across the read loop (lines 71-73):
    [touch_x] and [touch_y], initialised to the sentinel [-1], and
    [touch_active], initialised to [0].  Each full [struct input_event]
    goes through the if-chain of lines 103-129: an EV_ABS record with an
    X-like or Y-like code stores its value, an EV_KEY/BTN_TOUCH record
    stores the button state, and an EV_SYN/SYN_REPORT record ends the run
    with the line ["x,y"] when both coordinates are non-negative.

    [process_event] is that if-chain; [run_events] feeds it a sequence of
    records (the loop of read_touch_events with every read returning a full
    record and no signal; the loop itself, with its errors and signals, is
    in ReadLoop.v).  The abstract specification [first_frame] says which
    output a sequence of records produces in terms of the last value of
    each axis before the first complete frame; [run_events_first_frame]
    proves that the code implements it. *)

From Stdlib Require Import ZArith List Lia.
From stdpp Require Import base decidable list.
From S2P Require Import Prelude InputEvent.

Open Scope Z_scope.

Module Touch.
Import Ev.

(** ** The state and the dispatch *)

Record touch_state := mk_touch {
  touch_x : Z;
  touch_y : Z;
  touch_active : Z
}.

Definition init_touch : touch_state := mk_touch (-1) (-1) 0.

(** What the loop body does with one record: go round again with a new
    state, or print ["x,y"] and return. *)
Inductive verdict :=
  | Continue (st : touch_state)
  | Emit (x y : Z).

Definition is_x_code (c : Z) : bool := (c =? ABS_X) || (c =? ABS_MT_POSITION_X).
Definition is_y_code (c : Z) : bool := (c =? ABS_Y) || (c =? ABS_MT_POSITION_Y).

(** Lines 103-129.  In C [touch_active] is true when non-zero. *)
Definition process_event (st : touch_state) (ev : input_event) : verdict :=
  if ev_type ev =? EV_ABS then
    if is_x_code (ev_code ev) then
      Continue (mk_touch (ev_value ev) (touch_y st) (touch_active st))
    else if is_y_code (ev_code ev) then
      Continue (mk_touch (touch_x st) (ev_value ev) (touch_active st))
    else Continue st
  else if ev_type ev =? EV_KEY then
    if ev_code ev =? BTN_TOUCH then
      Continue (mk_touch (touch_x st) (touch_y st) (ev_value ev))
    else Continue st
  else if (ev_type ev =? EV_SYN) && (ev_code ev =? SYN_REPORT) then
    if negb (touch_active st =? 0) && (0 <=? touch_x st) && (0 <=? touch_y st) then
      Emit (touch_x st) (touch_y st)
    else if (touch_active st =? 0) && (0 <=? touch_x st) && (0 <=? touch_y st) then
      Emit (touch_x st) (touch_y st)
    else Continue st
  else Continue st.

(** The loop over a sequence of full records, with no error and no
    signal: it stops at the first [Emit]. *)
Fixpoint run_events (st : touch_state) (evs : list input_event) : verdict :=
  match evs with
  | [] => Continue st
  | ev :: rest =>
      match process_event st ev with
      | Continue st' => run_events st' rest
      | Emit x y => Emit x y
      end
  end.

Definition output_of (v : verdict) : option (Z * Z) :=
  match v with Emit x y => Some (x, y) | Continue _ => None end.

(** ** The abstract specification *)

(** Which records set which field. *)
Definition sets_x (ev : input_event) : bool := (ev_type ev =? EV_ABS) && is_x_code (ev_code ev).
Definition sets_y (ev : input_event) : bool := (ev_type ev =? EV_ABS) && is_y_code (ev_code ev).
Definition sets_active (ev : input_event) : bool :=
  (ev_type ev =? EV_KEY) && (ev_code ev =? BTN_TOUCH).
Definition is_report (ev : input_event) : bool :=
  (ev_type ev =? EV_SYN) && (ev_code ev =? SYN_REPORT).

(** The value of the last record of [evs] that [p] selects, [d] if none. *)
Definition last_value (p : input_event -> bool) (evs : list input_event) (d : Z) : Z :=
  List.last (map ev_value (List.filter p evs)) d.

(** What the three variables hold after the records [evs]. *)
Definition summary (evs : list input_event) : touch_state :=
  mk_touch (last_value sets_x evs (-1)) (last_value sets_y evs (-1))
           (last_value sets_active evs 0).

(** A SYN_REPORT after [before] completes a frame when both coordinates
    are known, whatever the button state. *)
Definition frame_ready (before : list input_event) (ev : input_event) : bool :=
  is_report ev && (0 <=? last_value sets_x before (-1)) && (0 <=? last_value sets_y before (-1)).

Definition no_frame (evs : list input_event) : Prop :=
  forall b ev m, evs = b ++ ev :: m -> frame_ready b ev = false.

(** [evs] prints ["x,y"]: [x] and [y] are the last X and Y values before
    the first record that completes a frame. *)
Definition first_frame (evs : list input_event) (x y : Z) : Prop :=
  exists before ev after,
    evs = before ++ ev :: after /\ frame_ready before ev = true /\
    x = last_value sets_x before (-1) /\ y = last_value sets_y before (-1) /\
    no_frame before.

(** ** Lemmas *)

Lemma last_value_snoc p evs ev d :
  last_value p (evs ++ [ev]) d = if p ev then ev_value ev else last_value p evs d.
Proof.
  unfold last_value. rewrite List.filter_app. simpl. destruct (p ev); simpl.
  - rewrite map_app. simpl. apply last_last.
  - rewrite app_nil_r. reflexivity.
Qed.

Lemma codes_disjoint c : is_x_code c = true -> is_y_code c = false.
Proof.
  unfold is_x_code, is_y_code, ABS_X, ABS_Y, ABS_MT_POSITION_X, ABS_MT_POSITION_Y.
  rewrite orb_true_iff, !Z.eqb_eq. intros [-> | ->]; reflexivity.
Qed.

Lemma summary_nil : summary [] = init_touch.
Proof. reflexivity. Qed.

(** The dispatch in terms of the summaries: the two emitting branches of
    lines 115 and 122 together test only that both coordinates are known. *)
Lemma process_event_summary before ev :
  process_event (summary before) ev =
  if frame_ready before ev then
    Emit (last_value sets_x before (-1)) (last_value sets_y before (-1))
  else Continue (summary (before ++ [ev])).
Proof.
  unfold process_event, frame_ready, summary, is_report. cbn [touch_x touch_y touch_active].
  rewrite !last_value_snoc. unfold sets_x, sets_y, sets_active, is_report.
  destruct (ev_type ev =? EV_ABS) eqn:A.
  - apply Z.eqb_eq in A. rewrite A. simpl.
    destruct (is_x_code (ev_code ev)) eqn:X; simpl.
    + rewrite codes_disjoint by exact X. reflexivity.
    + destruct (is_y_code (ev_code ev)); reflexivity.
  - destruct (ev_type ev =? EV_KEY) eqn:K.
    + apply Z.eqb_eq in K. rewrite K. simpl.
      destruct (ev_code ev =? BTN_TOUCH); reflexivity.
    + destruct (ev_type ev =? EV_SYN) eqn:S; simpl; [|reflexivity].
      apply Z.eqb_eq in S. rewrite S in A, K.
      destruct (ev_code ev =? SYN_REPORT); simpl; [|reflexivity].
      destruct (last_value _ before 0 =? 0), (0 <=? last_value (fun ev => _ && _) before (-1)),
        (0 <=? last_value (fun ev => _ && is_y_code _) before (-1)); reflexivity.
Qed.

Lemma no_frame_nil : no_frame [].
Proof. intros [|? ?] ? ? E; discriminate. Qed.

Lemma no_frame_snoc before ev :
  no_frame before -> frame_ready before ev = false -> no_frame (before ++ [ev]).
Proof.
  intros NF R b ev' m E. destruct m as [|e m] using rev_ind.
  - apply app_inj_tail in E as [-> ->]. exact R.
  - rewrite app_comm_cons, app_assoc in E. apply app_inj_tail in E as [E _].
    exact (NF _ _ _ E).
Qed.

(** The loop from the state reached after [before]. *)
Lemma run_events_summary before evs x y :
  no_frame before ->
  run_events (summary before) evs = Emit x y <->
  exists b ev after,
    evs = b ++ ev :: after /\ frame_ready (before ++ b) ev = true /\
    x = last_value sets_x (before ++ b) (-1) /\ y = last_value sets_y (before ++ b) (-1) /\
    no_frame (before ++ b).
Proof.
  revert before. induction evs as [|e evs IH]; intros before NF; simpl.
  - split; [discriminate|]. intros ([|? ?] & ? & ? & E & _); discriminate.
  - rewrite process_event_summary. destruct (frame_ready before e) eqn:R.
    + split.
      * intros [= <- <-]. exists [], e, evs. rewrite app_nil_r. auto.
      * intros ([|e' b] & ev & after & E & R' & -> & -> & NF'); simpl in E.
        -- injection E as <- <-. rewrite app_nil_r. auto.
        -- injection E as <- _. rewrite (NF' before e b) in R; [discriminate | reflexivity].
    + rewrite IH by (apply no_frame_snoc; auto). split.
      * intros (b & ev & after & -> & H). exists (e :: b), ev, after.
        rewrite <- app_assoc in H. auto.
      * intros ([|e' b] & ev & after & E & R' & Hx & Hy & NF'); simpl in E; injection E as <- E.
        -- rewrite app_nil_r in R'. congruence.
        -- exists b, ev, after. rewrite <- app_assoc. auto.
Qed.

Lemma run_events_continue_summary before evs st :
  no_frame before ->
  run_events (summary before) evs = Continue st ->
  no_frame (before ++ evs) /\ st = summary (before ++ evs).
Proof.
  revert before. induction evs as [|e evs IH]; intros before NF; simpl.
  - intros [= <-]. rewrite app_nil_r. auto.
  - rewrite process_event_summary. destruct (frame_ready before e) eqn:R; [discriminate|].
    intros H. apply IH in H; [|apply no_frame_snoc; auto]. rewrite <- app_assoc in H. exact H.
Qed.

(** The emitting branches: a report, and both coordinates non-negative. *)
Lemma process_event_emit st ev x y :
  process_event st ev = Emit x y <->
  is_report ev = true /\ x = touch_x st /\ y = touch_y st /\ 0 <= x /\ 0 <= y.
Proof.
  unfold process_event, is_report.
  destruct (ev_type ev =? EV_ABS) eqn:A.
  { split; [destruct_ifs; discriminate|].
    intros [R _]. apply andb_true_iff in R as [S _].
    rewrite Z.eqb_eq in A, S. rewrite A in S. discriminate. }
  destruct (ev_type ev =? EV_KEY) eqn:K.
  { split; [destruct_ifs; discriminate|].
    intros [R _]. apply andb_true_iff in R as [S _].
    rewrite Z.eqb_eq in K, S. rewrite K in S. discriminate. }
  destruct ((ev_type ev =? EV_SYN) && (ev_code ev =? SYN_REPORT)); [|split; [discriminate | intuition congruence]].
  destruct (touch_active st =? 0); simpl; split_Zb; simpl;
    split; try intros [= <- <-]; try discriminate; intuition (subst; auto; lia).
Qed.

Definition same_pos (st st' : touch_state) : Prop :=
  touch_x st = touch_x st' /\ touch_y st = touch_y st'.

Lemma process_event_same_pos st st' ev :
  same_pos st st' ->
  match process_event st ev, process_event st' ev with
  | Emit x y, Emit x' y' => x = x' /\ y = y'
  | Continue s, Continue s' => same_pos s s'
  | _, _ => False
  end.
Proof.
  intros [Ex Ey].
  destruct (process_event st ev) as [s|x y] eqn:P, (process_event st' ev) as [s'|x' y'] eqn:P'.
  - revert P P'. unfold process_event, same_pos.
    destruct_ifs; intros [= <-] [= <-]; simpl; auto.
  - apply process_event_emit in P' as (R & -> & -> & ? & ?).
    assert (process_event st ev = Emit (touch_x st) (touch_y st)) as P2
      by (apply process_event_emit; rewrite Ex, Ey; auto). congruence.
  - apply process_event_emit in P as (R & -> & -> & ? & ?).
    assert (process_event st' ev = Emit (touch_x st') (touch_y st')) as P2
      by (apply process_event_emit; rewrite <- Ex, <- Ey; auto). congruence.
  - apply process_event_emit in P as (_ & -> & -> & _). apply process_event_emit in P' as (_ & -> & -> & _).
    auto.
Qed.

Lemma last_value_le p evs d M :
  Forall (fun ev => ev_value ev <= M) evs -> d <= M -> last_value p evs d <= M.
Proof.
  intros F Hd. induction evs as [|e evs IH] using rev_ind; [exact Hd|].
  apply Forall_app in F as [F1 F2]. inversion F2; subst.
  rewrite last_value_snoc. destruct (p e); auto.
Qed.

(** ** Theorems *)

(** C1: the reader's if-chain, run from the initial state over a sequence
    of full records, prints ["x,y"] exactly when [first_frame] says so:
    [x] and [y] are the last X and Y values (legacy or multi-touch code)
    before the first SYN_REPORT at which both are non-negative. *)
Theorem run_events_first_frame evs x y :
  run_events init_touch evs = Emit x y <-> first_frame evs x y.
Proof.
  rewrite <- summary_nil, run_events_summary by apply no_frame_nil. reflexivity.
Qed.

(** C7: when no record completes a frame the loop keeps waiting, and its
    three variables hold the last X, Y and BTN_TOUCH values seen (the
    sentinels [-1], [-1], [0] for an axis never reported). *)
Theorem run_events_waiting evs st :
  run_events init_touch evs = Continue st <-> no_frame evs /\ st = summary evs.
Proof.
  rewrite <- summary_nil. split.
  - intros H. apply run_events_continue_summary in H; [exact H | apply no_frame_nil].
  - intros [NF ->]. destruct (run_events (summary []) evs) as [st'|x y] eqn:E.
    + apply run_events_continue_summary in E as [_ ->]; [reflexivity | apply no_frame_nil].
    + apply run_events_summary in E as (b & ev & after & -> & R & _); [|apply no_frame_nil].
      simpl in R. rewrite (NF b ev after) in R; [discriminate | reflexivity].
Qed.

(** C6: BTN_TOUCH never changes what is printed: from two states with the
    same coordinates and any button states, the loop prints the same
    line, so a press frame and a release frame cannot be told apart. *)
Theorem output_ignores_button x y a a' evs :
  output_of (run_events (mk_touch x y a) evs) = output_of (run_events (mk_touch x y a') evs).
Proof.
  assert (same_pos (mk_touch x y a) (mk_touch x y a')) as H by (split; reflexivity).
  revert H. generalize (mk_touch x y a), (mk_touch x y a'). clear.
  induction evs as [|ev evs IH]; intros st st' H; simpl; [reflexivity|].
  pose proof (process_event_same_pos st st' ev H) as P.
  destruct (process_event st ev), (process_event st' ev); try contradiction.
  - apply IH, P.
  - destruct P as [-> ->]. reflexivity.
Qed.

(** C18: a printed coordinate is a value some record carried: it is
    non-negative and fits the [__s32] field it came from. *)
Theorem run_events_output_range evs x y :
  Forall (fun ev => in_s32 (ev_value ev) = true) evs ->
  run_events init_touch evs = Emit x y ->
  0 <= x <= s32_max /\ 0 <= y <= s32_max.
Proof.
  intros F E. rewrite <- summary_nil in E.
  apply run_events_summary in E as (b & ev & after & -> & R & -> & -> & _); [|apply no_frame_nil].
  cbn [app] in *.
  apply Forall_app in F as [F _].
  assert (Forall (fun ev => ev_value ev <= s32_max) b) as F'.
  { eapply Forall_impl; [exact F|]. intros e H. apply in_s32_iff in H. lia. }
  unfold frame_ready in R. rewrite !andb_true_iff, !Z.leb_le in R.
  pose proof (last_value_le sets_x b (-1) s32_max F'). pose proof (last_value_le sets_y b (-1) s32_max F').
  unfold s32_max in *. lia.
Qed.

(** ** Witnesses *)

(** The stream of the spec's first scenario: ABS_X = 100, ABS_Y = 200,
    BTN_TOUCH = 1, SYN_REPORT. *)
Definition press_stream : list input_event :=
  [mk_event 0 0 EV_ABS ABS_X 100; mk_event 0 0 EV_ABS ABS_Y 200;
   mk_event 0 0 EV_KEY BTN_TOUCH 1; mk_event 0 0 EV_SYN SYN_REPORT 0].

Lemma run_events_output_range_witness :
  Forall (fun ev => in_s32 (ev_value ev) = true) press_stream /\
  run_events init_touch press_stream = Emit 100 200 /\
  0 <= 100 <= s32_max /\ 0 <= 200 <= s32_max.
Proof.
  split; [repeat constructor|]. split; [vm_compute; reflexivity|].
  apply (run_events_output_range press_stream); [repeat constructor | vm_compute; reflexivity].
Defined.

End Touch.
