(* ===== verification/ReadLoop.v ===== *)
(** * read_touch_events: the open, the handlers and the read loop

    Lines 68-134 of touch_reader.c as a transition system.  A configuration
    holds the program point, the [volatile int running] flag written by the
    signal handler (lines 18-22), whether the SIGINT/SIGTERM handlers are
    installed yet (lines 84-85), the three touch variables, whether the
    device descriptor is open, and what was written to stdout and stderr.

    Some transitions are the program's own (the [while (running)] test, the
    call of [read]); the others are chosen by the environment: whether
    [open] succeeds, what a [read] returns (an errno, or up to
    [sizeof(struct input_event)] bytes), and when a termination signal is
    delivered.  Which of these interleavings the theorems quantify over is
    what makes them claims about every run.

    Signal delivery has two semantics, chosen by [sa_restart]: with the BSD
    semantics glibc's [signal()] installs ([SA_RESTART]) a read blocked in
    the kernel is restarted after the handler; with System V semantics it
    fails with EINTR. *)

From Stdlib Require Import ZArith List String Lia.
From coqutil Require Import Byte.
From stdpp Require Import base decidable list.
From S2P Require Import Prelude CString InputEvent Reader.

Open Scope Z_scope.
Open Scope reader_scope.

Module Loop.
Import Ev Touch.

(** ** Data *)

Definition EINTR : Z := 4.

(** What [read(fd, &ev, sizeof(ev))] returns: [-1] with an errno, or the
    bytes it stored (their count is the return value). *)
Inductive read_result :=
  | RdErr (errno : Z)
  | RdData (bs : list byte).

(** The diagnostics written to stderr. *)
Inductive diag :=
  | DCannotOpen (path : string) (errno : Z)   (** line 77 *)
  | DListening (path : string)                (** lines 81-82 *)
  | DReadError (errno : Z).                   (** line 94 *)

Inductive pc :=
  | AtOpen            (** line 75: [open(device_path, O_RDONLY)] *)
  | AtInstall         (** lines 84-85: the handlers are not installed yet *)
  | AtCheck           (** line 87: [while (running)] *)
  | AtRead            (** line 88, before the [read] system call blocks *)
  | InRead            (** blocked in [read] *)
  | Exited (code : Z) (** [read_touch_events] returned [code] *)
  | Killed.           (** terminated by the default action of a signal *)

Record config := mk_config {
  c_pc : pc;
  c_running : bool;
  c_handlers : bool;
  c_touch : touch_state;
  c_fd_open : bool;
  c_stdout : list string;
  c_stderr : list diag
}.

(** ** Operations *)

Section Loop.
Context {abi : Abi}.
Variable sa_restart : bool.
Variable path : string.

Definition init_config : config := mk_config AtOpen true false init_touch false [] [].

Definition set_pc (p : pc) (c : config) : config :=
  mk_config p (c_running c) (c_handlers c) (c_touch c) (c_fd_open c) (c_stdout c) (c_stderr c).

Definition set_touch (st : touch_state) (c : config) : config :=
  mk_config (c_pc c) (c_running c) (c_handlers c) st (c_fd_open c) (c_stdout c) (c_stderr c).

Definition log (d : diag) (c : config) : config :=
  mk_config (c_pc c) (c_running c) (c_handlers c) (c_touch c) (c_fd_open c) (c_stdout c)
            (c_stderr c ++ [d]).

(** [close(fd); return code;] *)
Definition close_and_return (code : Z) (c : config) : config :=
  mk_config (Exited code) (c_running c) (c_handlers c) (c_touch c) false (c_stdout c) (c_stderr c).

(** [printf("%d,%d\n", x, y); fflush(stdout);] *)
Definition print_coords (x y : Z) (c : config) : config :=
  mk_config (c_pc c) (c_running c) (c_handlers c) (c_touch c) (c_fd_open c)
            (c_stdout c ++ [CStr.coord_line x y]) (c_stderr c).

(** Lines 76-79: the open failed. *)
Definition open_failed (errno : Z) (c : config) : config :=
  set_pc (Exited 1) (log (DCannotOpen path errno) c).

(** Lines 75 and 81-82: the open succeeded and the banner is written. *)
Definition opened (c : config) : config :=
  mk_config AtInstall (c_running c) (c_handlers c) (c_touch c) true (c_stdout c)
            (c_stderr c ++ [DListening path]).

(** Lines 84-85. *)
Definition install (c : config) : config :=
  mk_config AtCheck (c_running c) true (c_touch c) (c_fd_open c) (c_stdout c) (c_stderr c).

(** Line 87, and lines 132-133 when the flag is clear. *)
Definition check (c : config) : config :=
  if c_running c then set_pc AtRead c else close_and_return 0 c.

(** Lines 90-129: what the loop body does with the result of [read]. *)
Definition after_read (r : read_result) (c : config) : config :=
  match r with
  | RdErr e =>
      if e =? EINTR then set_pc AtCheck c
      else close_and_return 0 (log (DReadError e) c)
  | RdData bs =>
      if Nat.ltb (length bs) sizeof_input_event then set_pc AtCheck c
      else match decode_event bs with
           | None => set_pc AtCheck c
           | Some ev =>
               match process_event (c_touch c) ev with
               | Continue st => set_pc AtCheck (set_touch st c)
               | Emit x y => close_and_return 0 (print_coords x y c)
               end
           end
  end.

(** Line 21: the handler clears [running]; without handlers the signal
    terminates the process.  Under System V semantics a [read] the signal
    interrupts returns [-1] with [EINTR]. *)
Definition on_signal (c : config) : config :=
  if c_handlers c then
    let c1 := mk_config (c_pc c) false true (c_touch c) (c_fd_open c) (c_stdout c) (c_stderr c) in
    match c_pc c with
    | InRead => if sa_restart then c1 else after_read (RdErr EINTR) c1
    | _ => c1
    end
  else set_pc Killed c.

Definition final (p : pc) : bool :=
  match p with Exited _ | Killed => true | _ => false end.

(** What a [read] on the device can return: a positive errno, or at most
    one record's worth of bytes. *)
Definition valid_read (r : read_result) : bool :=
  match r with
  | RdErr e => 0 <? e
  | RdData bs => Nat.leb (length bs) sizeof_input_event
  end.

(** ** The transition relation *)

Inductive step : config -> config -> Prop :=
  | step_open_fail c errno :
      c_pc c = AtOpen -> 0 < errno -> step c (open_failed errno c)
  | step_open_ok c :
      c_pc c = AtOpen -> step c (opened c)
  | step_install c :
      c_pc c = AtInstall -> step c (install c)
  | step_check c :
      c_pc c = AtCheck -> step c (check c)
  | step_enter_read c :
      c_pc c = AtRead -> step c (set_pc InRead c)
  | step_read_return c r :
      c_pc c = InRead -> valid_read r = true -> step c (after_read r c)
  | step_signal c :
      final (c_pc c) = false -> step c (on_signal c).

Definition reachable (c : config) : Prop := step^* init_config c.

(** ** An executable scheduler *)

(** Who moves next: the environment ([AOpenFail], [AOpenOk], [ARead],
    [ASignal]) or the program ([AProgram]). *)
Inductive action :=
  | AOpenFail (errno : Z)
  | AOpenOk
  | AProgram
  | ARead (r : read_result)
  | ASignal.

Definition exec1 (a : action) (c : config) : option config :=
  match a, c_pc c with
  | AOpenFail e, AtOpen => if 0 <? e then Some (open_failed e c) else None
  | AOpenOk, AtOpen => Some (opened c)
  | AProgram, AtInstall => Some (install c)
  | AProgram, AtCheck => Some (check c)
  | AProgram, AtRead => Some (set_pc InRead c)
  | ARead r, InRead => if valid_read r then Some (after_read r c) else None
  | ASignal, p => if final p then None else Some (on_signal c)
  | _, _ => None
  end.

Fixpoint exec (acts : list action) (c : config) : option config :=
  match acts with
  | [] => Some c
  | a :: rest => match exec1 a c with Some c' => exec rest c' | None => None end
  end.

(** ** Lemmas *)

Lemma exec1_step a c c' : exec1 a c = Some c' -> step c c'.
Proof.
  unfold exec1. destruct a as [e| | |r|]; destruct (c_pc c) eqn:P; try discriminate;
    try (intros [= <-]; apply step_signal; rewrite P; reflexivity).
  - destruct (Z.ltb_spec 0 e); [|discriminate]. intros [= <-]. apply step_open_fail; auto.
  - intros [= <-]. apply step_open_ok; auto.
  - intros [= <-]. apply step_install; auto.
  - intros [= <-]. apply step_check; auto.
  - intros [= <-]. apply step_enter_read; auto.
  - destruct (valid_read r) eqn:V; [|discriminate]. intros [= <-]. apply step_read_return; auto.
Qed.

Lemma step_exec1 c c' : step c c' -> exists a, exec1 a c = Some c'.
Proof.
  destruct 1 as [c e P E|c P|c P|c P|c P|c r P V|c F].
  - exists (AOpenFail e). unfold exec1. rewrite P. apply Z.ltb_lt in E. rewrite E. reflexivity.
  - exists AOpenOk. unfold exec1. rewrite P. reflexivity.
  - exists AProgram. unfold exec1. rewrite P. reflexivity.
  - exists AProgram. unfold exec1. rewrite P. reflexivity.
  - exists AProgram. unfold exec1. rewrite P. reflexivity.
  - exists (ARead r). unfold exec1. rewrite P, V. reflexivity.
  - exists ASignal. unfold exec1. rewrite F. destruct (c_pc c); reflexivity.
Qed.

Lemma exec_star acts c c' : exec acts c = Some c' -> star step c c'.
Proof.
  revert c. induction acts as [|a acts IH]; intros c; simpl.
  - intros [= <-]. apply star_refl.
  - destruct (exec1 a c) as [c1|] eqn:E; [|discriminate].
    intros H. apply exec1_step in E. eauto with reader.
Qed.

Lemma exec_app acts1 acts2 c :
  exec (acts1 ++ acts2) c = match exec acts1 c with Some c' => exec acts2 c' | None => None end.
Proof.
  revert c. induction acts1 as [|a acts1 IH]; intros c; simpl; [reflexivity|].
  destruct (exec1 a c); [apply IH | reflexivity].
Qed.

(** A configuration that has returned or been killed makes no move. *)
Lemma final_stuck c c' : final (c_pc c) = true -> ~ step c c'.
Proof. intros F S. destruct S; rewrite ?H in F; try discriminate; congruence. Qed.

(** The two outcomes of the loop body. *)
Lemma after_read_cases r c :
  c_handlers (after_read r c) = c_handlers c /\ c_running (after_read r c) = c_running c /\
  ((c_pc (after_read r c) = AtCheck /\ c_fd_open (after_read r c) = c_fd_open c /\
    c_stdout (after_read r c) = c_stdout c) \/
   (c_pc (after_read r c) = Exited 0 /\ c_fd_open (after_read r c) = false /\
    (c_stdout (after_read r c) = c_stdout c \/
     exists x y, c_stdout (after_read r c) = c_stdout c ++ [CStr.coord_line x y] /\ 0 <= x /\ 0 <= y))).
Proof.
  unfold after_read. destruct r as [e|bs].
  - destruct (e =? EINTR); simpl; auto 10.
  - destruct (Nat.ltb _ _); [simpl; auto 10|].
    destruct (decode_event bs) as [ev|]; [|simpl; auto 10].
    destruct (process_event (c_touch c) ev) as [st|x y] eqn:P; [simpl; auto 10|].
    apply process_event_emit in P as (_ & _ & _ & ? & ?). simpl.
    split; [reflexivity|]. split; [reflexivity|]. right.
    split; [reflexivity|]. split; [reflexivity|]. right. eauto.
Qed.

(** ** The invariant *)

Definition holds_fd (p : pc) : bool :=
  match p with AtInstall | AtCheck | AtRead | InRead => true | _ => false end.

Definition in_loop (p : pc) : bool :=
  match p with AtCheck | AtRead | InRead => true | _ => false end.

Record loop_inv (c : config) : Prop := {
  inv_fd : c_pc c <> Killed -> c_fd_open c = holds_fd (c_pc c);
  inv_handlers : in_loop (c_pc c) = true -> c_handlers c = true;
  inv_flag : c_running c = false -> c_handlers c = true;
  inv_start : c_pc c = AtOpen -> c_stdout c = [] /\ c_stderr c = [] /\ c_handlers c = false;
  inv_out : c_stdout c = [] \/
    exists x y, c_stdout c = [CStr.coord_line x y] /\ 0 <= x /\ 0 <= y /\ c_pc c = Exited 0;
  inv_exit : forall code, c_pc c = Exited code ->
    (code = 0 /\ c_handlers c = true) \/
    (code = 1 /\ c_stdout c = [] /\ exists e, c_stderr c = [DCannotOpen path e])
}.

Lemma loop_inv_init : loop_inv init_config.
Proof.
  split; simpl; try discriminate; auto.
Qed.

(** Before the return nothing has been printed. *)
Lemma loop_inv_stdout_nil c : loop_inv c -> final (c_pc c) = false -> c_stdout c = [].
Proof.
  intros I F. destruct (inv_out c I) as [O | (x & y & _ & _ & _ & P)]; [exact O|].
  rewrite P in F. discriminate.
Qed.

Lemma loop_inv_after_read r c :
  loop_inv c -> c_pc c = InRead -> loop_inv (after_read r c).
Proof.
  intros I P. pose proof (loop_inv_stdout_nil c I ltac:(rewrite P; reflexivity)) as O.
  pose proof (inv_fd c I ltac:(congruence)) as Fd. rewrite P in Fd.
  pose proof (inv_handlers c I ltac:(rewrite P; reflexivity)) as Hh.
  destruct (after_read_cases r c) as (Eh & Er & [(P' & F' & O') | (P' & F' & O')]);
    split; rewrite ?P', ?F', ?Eh, ?Er; try discriminate; auto.
  - rewrite O'. auto.
  - rewrite O in O'. destruct O' as [-> | (x & y & -> & ? & ?)]; [auto|]. right. eauto 10.
  - intros code [= <-]. auto.
Qed.

(** The cases where the configuration keeps its descriptor and output. *)
Local Ltac inv_close Ifd P :=
  try discriminate; auto;
  try (intros _; rewrite Ifd, P by congruence; reflexivity);
  try (intros ? [= <-]; auto).

Lemma loop_inv_step c c' : loop_inv c -> step c c' -> loop_inv c'.
Proof.
  intros I S. pose proof I as [Ifd Ih Ifl Ist Iout Iex].
  destruct S as [c e P E|c P|c P|c P|c P|c r P V|c F].
  - destruct (Ist P) as (O & Er & Hh).
    split; simpl; inv_close Ifd P. right. rewrite O, Er. eauto.
  - destruct (Ist P) as (O & Er & Hh). split; simpl; inv_close Ifd P.
  - pose proof (loop_inv_stdout_nil c I ltac:(rewrite P; reflexivity)) as O.
    split; simpl; rewrite ?O; inv_close Ifd P.
  - assert (c_handlers c = true) by (apply Ih; rewrite P; reflexivity).
    pose proof (loop_inv_stdout_nil c I ltac:(rewrite P; reflexivity)) as O.
    unfold check. destruct (c_running c) eqn:R; split; simpl; rewrite ?O; inv_close Ifd P.
  - pose proof (loop_inv_stdout_nil c I ltac:(rewrite P; reflexivity)) as O.
    split; simpl; rewrite ?O; inv_close Ifd P. intros _. apply Ih. rewrite P. reflexivity.
  - apply loop_inv_after_read; auto.
  - pose proof (loop_inv_stdout_nil c I F) as O. unfold on_signal.
    destruct (c_handlers c) eqn:Hh.
    + assert (c_pc c <> AtOpen) as NO by (intros P; destruct (Ist P) as (_ & _ & ?); congruence).
      destruct (c_pc c) eqn:P; try discriminate; try congruence;
        try (split; simpl; rewrite ?O, ?P; inv_close Ifd P; fail).
      destruct sa_restart.
      * split; simpl; rewrite ?O, ?P; inv_close Ifd P.
      * apply loop_inv_after_read; [|reflexivity].
        split; simpl; rewrite ?O, ?P; inv_close Ifd P.
    + split; simpl; rewrite ?O; inv_close Ifd P.
      * intros H. congruence.
      * intros H. apply Ifl in H. congruence.
Qed.

Lemma reachable_inv c : reachable c -> loop_inv c.
Proof.
  intros R. eapply star_invariant; [exact loop_inv_step | exact R | exact loop_inv_init].
Qed.

(** One full record: the test of [running], the call of [read], and the
    if-chain on what it returned. *)
Definition read_actions (ev : input_event) : list action :=
  [AProgram; AProgram; ARead (RdData (encode_event ev))].

Lemma exec_read_record c ev :
  c_pc c = AtCheck -> c_running c = true -> wf_event ev = true ->
  exec (read_actions ev) c =
  Some (match process_event (c_touch c) ev with
        | Continue st => set_touch st c
        | Emit x y => close_and_return 0 (print_coords x y c)
        end).
Proof.
  intros P R W. destruct c as [p run h t fd o e]; simpl in P, R; subst.
  unfold read_actions. simpl. unfold check. simpl.
  unfold valid_read. rewrite length_encode_event, Nat.leb_refl. simpl.
  unfold after_read. rewrite ?length_encode_event, Nat.ltb_irrefl, decode_of_encode by exact W.
  simpl. destruct (process_event t ev); reflexivity.
Qed.

(** ** Theorems *)

(** C2: in every reachable configuration at most one line has been
    written to stdout; when there is one, it is ["x,y\n"] with both
    coordinates non-negative, the function has returned 0 and the device
    descriptor is closed. *)
Theorem at_most_one_line c :
  reachable c ->
  c_stdout c = [] \/
  exists x y, c_stdout c = [CStr.coord_line x y] /\ 0 <= x /\ 0 <= y /\
              c_pc c = Exited 0 /\ c_fd_open c = false.
Proof.
  intros R. pose proof (reachable_inv c R) as I.
  destruct (inv_out c I) as [O | (x & y & O & Hx & Hy & P)]; [auto|].
  right. exists x, y. repeat split; auto.
  rewrite (inv_fd c I) by congruence. rewrite P. reflexivity.
Qed.

(** C4: when read_touch_events returns, the descriptor is closed and the
    status is 0, or 1 after a failed open, in which case nothing was
    printed and stderr holds only the "Cannot open" line. *)
Theorem exit_status c code :
  reachable c -> c_pc c = Exited code ->
  c_fd_open c = false /\
  (code = 0 \/ (code = 1 /\ c_stdout c = [] /\ exists e, c_stderr c = [DCannotOpen path e])).
Proof.
  intros R P. pose proof (reachable_inv c R) as I. split.
  - rewrite (inv_fd c I) by congruence. rewrite P. reflexivity.
  - destruct (inv_exit c I code P) as [[-> _] | H]; auto.
Qed.

(** C3: the loop refines [run_events]: from the [while (running)] test,
    reading well-formed records one by one either leaves the loop waiting
    in the state [run_events] computes, or reaches a return of 0 whose one
    new stdout line is the coordinates [run_events] emits. *)
Theorem loop_runs_events c evs :
  c_pc c = AtCheck -> c_running c = true -> Forall (fun ev => wf_event ev = true) evs ->
  match run_events (c_touch c) evs with
  | Continue st => star step c (set_touch st c)
  | Emit x y => exists c', star step c c' /\ c_pc c' = Exited 0 /\ c_fd_open c' = false /\
                           c_stdout c' = c_stdout c ++ [CStr.coord_line x y]
  end.
Proof.
  revert c. induction evs as [|ev evs IH]; intros c P R F; simpl.
  - destruct c. simpl in *. subst. apply star_refl.
  - apply Forall_cons in F as [W F]. pose proof (exec_read_record c ev P R W) as E.
    apply exec_star in E.
    destruct (process_event (c_touch c) ev) as [st|x y].
    + specialize (IH (set_touch st c) P R F). simpl in IH.
      destruct (run_events st evs) as [st'|x y].
      * eapply star_trans; [exact E|]. destruct c; exact IH.
      * destruct IH as (c' & S & H). exists c'. split; [eapply star_trans; eauto | exact H].
    + eexists. split; [exact E|]. auto.
Qed.

(** C9: a [read] that fails with an errno other than EINTR makes the
    function return 0 without printing: the exit status does not report
    the failure. *)
Theorem read_error_returns_zero c e :
  c_pc c = InRead -> 0 < e -> e <> EINTR ->
  exists c', step c c' /\ c_pc c' = Exited 0 /\ c_stdout c' = c_stdout c /\
             c_fd_open c' = false /\ c_stderr c' = c_stderr c ++ [DReadError e].
Proof.
  intros P He Hn. exists (after_read (RdErr e) c). split.
  - apply step_read_return; [exact P|]. apply Z.ltb_lt. exact He.
  - unfold after_read. apply Z.eqb_neq in Hn. rewrite Hn. auto.
Qed.

(** C11: with System V signal semantics a termination signal that arrives
    while [read] blocks ends the run: the read fails with EINTR, the loop
    test sees [running == 0], and the function returns 0 with nothing
    printed. *)
Theorem sysv_signal_in_read_exits c :
  sa_restart = false -> c_pc c = InRead -> c_handlers c = true ->
  exists c', exec [ASignal; AProgram] c = Some c' /\
             c_pc c' = Exited 0 /\ c_stdout c' = c_stdout c /\ c_fd_open c' = false.
Proof.
  intros SR P H. unfold exec, exec1. rewrite P. simpl. unfold on_signal. rewrite H, P, SR.
  simpl. eexists. repeat split.
Qed.

(** C8: with the SA_RESTART semantics glibc's [signal()] installs, a
    termination signal that arrives while [read] blocks does not end the
    run: the read goes on, and a record completing a frame still prints
    ["x,y"]. *)
Theorem restart_signal_still_prints c ev x y :
  sa_restart = true -> c_pc c = InRead -> c_handlers c = true -> wf_event ev = true ->
  process_event (c_touch c) ev = Emit x y ->
  exists c', exec [ASignal; ARead (RdData (encode_event ev))] c = Some c' /\
             c_running c' = false /\ c_pc c' = Exited 0 /\
             c_stdout c' = c_stdout c ++ [CStr.coord_line x y].
Proof.
  intros SR P H W E. unfold exec, exec1. rewrite P. simpl. unfold on_signal. rewrite H, P, SR.
  simpl. unfold valid_read. rewrite length_encode_event, Nat.leb_refl.
  unfold after_read. rewrite ?length_encode_event, Nat.ltb_irrefl, decode_of_encode by exact W.
  simpl. rewrite E. eexists. repeat split.
Qed.

(** C12: a signal delivered after the [while (running)] test and before
    [read] blocks clears the flag, yet the process then blocks in [read]
    whatever the signal semantics: the flag is only looked at again after
    the kernel delivers data. *)
Theorem signal_before_read_blocks c :
  c_pc c = AtRead -> c_handlers c = true ->
  exists c', exec [ASignal; AProgram] c = Some c' /\ c_pc c' = InRead /\ c_running c' = false.
Proof.
  intros P H. unfold exec, exec1. rewrite P. simpl. unfold on_signal. rewrite H, P.
  simpl. eexists. repeat split.
Qed.

(** C13: when [read] returns 0 bytes (end of file) the loop comes back to
    the very configuration it started from, so without a signal it spins
    forever. *)
Theorem eof_spins c :
  c_pc c = AtCheck -> c_running c = true ->
  exec [AProgram; AProgram; ARead (RdData [])] c = Some c.
Proof.
  intros P R. destruct c as [p run h t fd o e]; simpl in P, R; subst.
  unfold exec, exec1, check. simpl. unfold sizeof_input_event.
  destruct (Nat.ltb_spec 0 (2 * long_bytes + 8)); [reflexivity | lia].
Qed.

End Loop.

(** ** Witnesses, on the 32-bit ARM layout *)

Section Witnesses.
#[local] Existing Instance abi_arm32.

Definition ex_path : string := "/dev/input/event1"%string.

(** Open, install the handlers, then read the spec's first scenario. *)
Definition press_schedule : list action :=
  [AOpenOk; AProgram] ++ flat_map read_actions press_stream.

(** Open and reach the loop test. *)
Definition loop_entry : config := install (opened ex_path init_config).

(** The loop blocked in [read] with the handlers installed. *)
Definition blocked : config := set_pc InRead loop_entry.

Lemma at_most_one_line_witness :
  exists c, exec false ex_path press_schedule init_config = Some c /\
    reachable false ex_path c /\
    (c_stdout c = [] \/
     exists x y, c_stdout c = [CStr.coord_line x y] /\ 0 <= x /\ 0 <= y /\
                 c_pc c = Exited 0 /\ c_fd_open c = false).
Proof.
  eexists. split; [vm_compute; reflexivity|].
  assert (R : reachable false ex_path
                (mk_config (Exited 0) true true (mk_touch 100 200 1) false
                   [CStr.coord_line 100 200] [DListening ex_path]))
    by (eapply exec_star with (acts := press_schedule); vm_compute; reflexivity).
  split; [exact R|]. apply (at_most_one_line false ex_path). exact R.
Defined.

Lemma exit_status_witness :
  reachable false ex_path (open_failed ex_path 2 init_config) /\
  c_pc (open_failed ex_path 2 init_config) = Exited 1 /\
  c_fd_open (open_failed ex_path 2 init_config) = false /\
  (1 = 0 \/ (1 = 1 /\ c_stdout (open_failed ex_path 2 init_config) = [] /\
              exists e, c_stderr (open_failed ex_path 2 init_config) = [DCannotOpen ex_path e])).
Proof.
  assert (R : reachable false ex_path (open_failed ex_path 2 init_config))
    by (eapply exec_star with (acts := [AOpenFail 2]); vm_compute; reflexivity).
  split; [exact R|]. split; [reflexivity|].
  apply (exit_status false ex_path); [exact R | reflexivity].
Defined.

Lemma loop_runs_events_witness :
  c_pc loop_entry = AtCheck /\ c_running loop_entry = true /\
  Forall (fun ev => wf_event ev = true) press_stream /\
  exists c', star (step false ex_path) loop_entry c' /\ c_pc c' = Exited 0 /\
             c_fd_open c' = false /\ c_stdout c' = c_stdout loop_entry ++ [CStr.coord_line 100 200].
Proof.
  split; [reflexivity|]. split; [reflexivity|]. split; [repeat constructor|].
  apply (loop_runs_events false ex_path loop_entry press_stream);
    [reflexivity | reflexivity | repeat constructor].
Defined.

Lemma read_error_returns_zero_witness :
  c_pc blocked = InRead /\ 0 < 5 /\ 5 <> EINTR /\
  exists c', step false ex_path blocked c' /\ c_pc c' = Exited 0 /\
             c_stdout c' = c_stdout blocked /\ c_fd_open c' = false /\
             c_stderr c' = c_stderr blocked ++ [DReadError 5].
Proof.
  split; [reflexivity|]. split; [lia|]. split; [vm_compute; discriminate|].
  apply (read_error_returns_zero false ex_path blocked 5); [reflexivity | lia | vm_compute; discriminate].
Defined.

Lemma sysv_signal_in_read_exits_witness :
  c_pc blocked = InRead /\ c_handlers blocked = true /\
  exists c', exec false ex_path [ASignal; AProgram] blocked = Some c' /\
             c_pc c' = Exited 0 /\ c_stdout c' = c_stdout blocked /\ c_fd_open c' = false.
Proof.
  split; [reflexivity|]. split; [reflexivity|].
  apply (sysv_signal_in_read_exits false ex_path blocked); reflexivity.
Defined.

(** Blocked after X = 100 and Y = 200 were read. *)
Definition blocked_known : config := set_touch (mk_touch 100 200 0) blocked.

Definition syn_event : input_event := mk_event 0 0 EV_SYN SYN_REPORT 0.

Lemma restart_signal_still_prints_witness :
  c_pc blocked_known = InRead /\ c_handlers blocked_known = true /\ wf_event syn_event = true /\
  process_event (c_touch blocked_known) syn_event = Emit 100 200 /\
  exists c', exec true ex_path [ASignal; ARead (RdData (encode_event syn_event))] blocked_known = Some c' /\
             c_running c' = false /\ c_pc c' = Exited 0 /\
             c_stdout c' = c_stdout blocked_known ++ [CStr.coord_line 100 200].
Proof.
  split; [reflexivity|]. split; [reflexivity|]. split; [vm_compute; reflexivity|].
  split; [vm_compute; reflexivity|].
  apply (restart_signal_still_prints true ex_path blocked_known syn_event 100 200);
    [reflexivity | reflexivity | reflexivity | vm_compute; reflexivity | vm_compute; reflexivity].
Defined.

Lemma signal_before_read_blocks_witness :
  c_pc (set_pc AtRead loop_entry) = AtRead /\ c_handlers (set_pc AtRead loop_entry) = true /\
  exists c', exec false ex_path [ASignal; AProgram] (set_pc AtRead loop_entry) = Some c' /\
             c_pc c' = InRead /\ c_running c' = false.
Proof.
  split; [reflexivity|]. split; [reflexivity|].
  apply (signal_before_read_blocks false ex_path); reflexivity.
Defined.

Lemma eof_spins_witness :
  c_pc loop_entry = AtCheck /\ c_running loop_entry = true /\
  exec false ex_path [AProgram; AProgram; ARead (RdData [])] loop_entry = Some loop_entry.
Proof.
  split; [reflexivity|]. split; [reflexivity|].
  apply (eof_spins false ex_path); reflexivity.
Defined.

End Witnesses.

End Loop.
