(* ===== verification/Locator.v ===== *)
(** * find_touch_device: choosing the input device

    Lines 25-65 of touch_reader.c.  The function walks the fixed list
    [/dev/input/event0], [event1], [event2]; for each it tries
    [open(path, O_RDONLY | O_NONBLOCK)], asks the device its name with the
    EVIOCGNAME ioctl into the stack array [char name[256]], and picks the
    first path whose name contains "touch", "Touch", "touchscreen" or
    "elan" (case-sensitive); with no match it falls back to
    [/dev/input/event1].  It always returns 0.

    The environment is a [world]: for each path, whether [open] succeeds
    and what name the kernel reports (if the ioctl succeeds).  The process
    state is the set of open descriptors and the stderr diagnostics.  The
    [name] array is threaded from one iteration to the next, as in C: the
    ioctl overwrites only as many bytes as it copies, and the kernel
    (drivers/input/evdev.c, [str_to_user]) copies
    [min(strlen(name) + 1, 256)] bytes, so a name of 256 characters or
    more leaves no NUL in the array.  Reading such an array with [strstr]
    is undefined behaviour, which the model returns as [None]. *)

From Stdlib Require Import ZArith List String Ascii Lia.
From stdpp Require Import base decidable list gmap.
From S2P Require Import Prelude CString.

Module Locate.
Import CStr.

(** ** Data *)

(** What the kernel offers at a path: [None] when [open] fails, otherwise
    the device, whose name query fails when [dev_name] is [None]. *)
Record device := mk_device { dev_name : option string }.

Definition world := string -> option device.

(** [char name[256]] *)
Definition NAME_LEN : nat := 256.

(** [char device_path[256]] of main, passed as [path_size]. *)
Definition PATH_SIZE : nat := 256.

(** The stderr lines of lines 54 and 63. *)
Inductive diag :=
  | LFound (path name : string)
  | LDefault (path : string).

Record proc := mk_proc {
  p_fds : gset Z;
  p_stderr : list diag
}.

Definition common_paths : list string :=
  ["/dev/input/event0"%string; "/dev/input/event1"%string; "/dev/input/event2"%string].

Definition default_path : string := "/dev/input/event1"%string.

(** ** Operations *)

(** EVIOCGNAME(sizeof(name)): the kernel copies the name and its NUL,
    cut to the size of the array; the rest of the array is unchanged. *)
Definition ioctl_name (devname : string) (buf : list ascii) : list ascii :=
  let bytes := list_ascii_of_string devname ++ [zero] in
  let n := Nat.min (length bytes) NAME_LEN in
  firstn n bytes ++ skipn n buf.

(** Lines 48-51. *)
Definition touch_name (name : string) : bool :=
  contains name "touch"%string || contains name "Touch"%string ||
  contains name "touchscreen"%string || contains name "elan"%string.

(** [open]: a new descriptor, one not in use. *)
Definition open_fd (p : proc) : Z * proc :=
  let fd := fresh (p_fds p) in (fd, mk_proc ({[fd]} ∪ p_fds p) (p_stderr p)).

Definition close_fd (fd : Z) (p : proc) : proc :=
  mk_proc (p_fds p ∖ {[fd]}) (p_stderr p).

Definition log (d : diag) (p : proc) : proc :=
  mk_proc (p_fds p) (p_stderr p ++ [d]).

(** The loop of lines 39-59 over the remaining candidates, then the
    fallback of lines 62-64.  The result is the return value, the process
    state and the string left in [device_path]; [None] is undefined
    behaviour. *)
Fixpoint probe (w : world) (paths : list string) (name : list ascii) (p : proc)
    : option (Z * proc * string) :=
  match paths with
  | [] =>
      let dp := snprintf_s PATH_SIZE default_path in
      Some (0%Z, log (LDefault dp) p, dp)
  | path :: rest =>
      match w path with
      | None => probe w rest name p
      | Some dev =>
          let '(fd, p1) := open_fd p in
          match dev_name dev with
          | None => probe w rest name (close_fd fd p1)
          | Some devname =>
              let name' := ioctl_name devname name in
              match c_string_of_buffer name' with
              | None => None
              | Some s =>
                  if touch_name s then
                    let dp := snprintf_s PATH_SIZE path in
                    Some (0%Z, log (LFound dp s) (close_fd fd p1), dp)
                  else probe w rest name' (close_fd fd p1)
              end
          end
      end
  end.

(** [find_touch_device(device_path, sizeof(device_path))], called with
    whatever the stack array [name] held before. *)
Definition find_touch_device (w : world) (name : list ascii) (p : proc)
    : option (Z * proc * string) :=
  probe w common_paths name p.

(** ** The abstract contract *)

(** The device a path offers a touch name for. *)
Definition is_touch (w : world) (path : string) : bool :=
  match w path with
  | Some (mk_device (Some n)) => touch_name n
  | _ => false
  end.

(** Section 4.1 of the spec: the first candidate whose name is a touch
    name, or the default path. *)
Definition locate_spec (w : world) (paths : list string) : string :=
  match List.find (is_touch w) paths with
  | Some path => path
  | None => default_path
  end.

(** The names the kernel reports are C strings that fit the array. *)
Definition names_fit (w : world) : Prop :=
  forall path dev n, w path = Some dev -> dev_name dev = Some n ->
    (String.length n < NAME_LEN)%nat /\ str_forall (fun a => negb (Ascii.eqb a zero)) n = true.

(** A world made of the devices at finitely many paths. *)
Definition world_of (l : list (string * device)) : world :=
  fun path => match List.find (fun '(q, _) => String.eqb q path) l with
              | Some (_, d) => Some d
              | None => None
              end.

Definition name_fitsb (d : device) : bool :=
  match dev_name d with
  | Some n => Nat.ltb (String.length n) NAME_LEN && str_forall (fun a => negb (Ascii.eqb a zero)) n
  | None => true
  end.

(** ** Lemmas *)

Lemma names_fit_of l : forallb (fun '(_, d) => name_fitsb d) l = true -> names_fit (world_of l).
Proof.
  intros F path dev n W N. unfold world_of in W.
  destruct (List.find _ l) as [[q d]|] eqn:E; [|discriminate]. injection W as <-.
  apply find_some in E as [In _]. rewrite forallb_forall in F. specialize (F _ In).
  unfold name_fitsb in F. rewrite N, andb_true_iff, Nat.ltb_lt in F. exact F.
Qed.

Lemma ioctl_name_fits devname buf :
  (String.length devname < NAME_LEN)%nat ->
  ioctl_name devname buf = list_ascii_of_string devname ++ zero :: skipn (String.length devname + 1) buf.
Proof.
  intros L. unfold ioctl_name.
  assert (length (list_ascii_of_string devname) = String.length devname) as E.
  { clear. induction devname; simpl; auto. }
  rewrite length_app, E. simpl.
  rewrite Nat.min_l by lia. rewrite firstn_all2 by (rewrite length_app, E; simpl; lia).
  rewrite <- app_assoc. reflexivity.
Qed.

Lemma name_of_ioctl devname buf :
  (String.length devname < NAME_LEN)%nat ->
  str_forall (fun a => negb (Ascii.eqb a zero)) devname = true ->
  c_string_of_buffer (ioctl_name devname buf) = Some devname.
Proof.
  intros L N. rewrite ioctl_name_fits by exact L. apply c_string_of_buffer_app. exact N.
Qed.

Lemma close_open_fds p :
  p_fds (close_fd (fresh (p_fds p)) (mk_proc ({[fresh (p_fds p)]} ∪ p_fds p) (p_stderr p))) = p_fds p.
Proof.
  unfold close_fd. simpl. pose proof (is_fresh (p_fds p)).
  apply set_eq. intros x. rewrite elem_of_difference, elem_of_union, elem_of_singleton.
  split; [intros [[->|H'] Hn]; [contradiction | exact H'] | intros Hx; split; [auto | intros ->; contradiction]].
Qed.

Lemma locate_spec_cons w path rest :
  locate_spec w (path :: rest) = if is_touch w path then path else locate_spec w rest.
Proof. unfold locate_spec. simpl. destruct (is_touch w path); reflexivity. Qed.

Lemma locate_spec_in w paths : locate_spec w paths = default_path \/ In (locate_spec w paths) paths.
Proof.
  induction paths as [|path rest IH]; [auto|]. rewrite locate_spec_cons.
  destruct (is_touch w path); simpl; [auto|]. destruct IH; auto.
Qed.

Lemma probe_spec w paths name p :
  names_fit w ->
  exists p', probe w paths name p = Some (0%Z, p', snprintf_s PATH_SIZE (locate_spec w paths)) /\
             p_fds p' = p_fds p.
Proof.
  intros Fit. revert name p. induction paths as [|path rest IH]; intros name p; simpl.
  - eexists. split; reflexivity.
  - rewrite locate_spec_cons. unfold is_touch.
    destruct (w path) as [[[n|]]|] eqn:W.
    + destruct (Fit path _ n W eq_refl) as [L N]. cbn [dev_name].
      rewrite name_of_ioctl by assumption.
      destruct (touch_name n).
      * eexists. split; [reflexivity|]. apply (close_open_fds p).
      * edestruct IH as (p' & E & F). rewrite E. eexists. split; [reflexivity|].
        rewrite F. apply close_open_fds.
    + cbn [dev_name]. edestruct IH as (p' & E & F). rewrite E. eexists. split; [reflexivity|].
      rewrite F. apply close_open_fds.
    + apply IH.
Qed.

(** ** Theorems *)

(** Every path out of the loop returns 0: there is no failure return. *)
Lemma probe_returns_zero w paths name p r p' path :
  probe w paths name p = Some (r, p', path) -> r = 0%Z.
Proof.
  revert name p. induction paths as [|q rest IH]; intros name p; simpl.
  - intros [= <- _ _]. reflexivity.
  - destruct (w q) as [[[n|]]|]; [|apply IH|apply IH]. cbn [dev_name].
    destruct (c_string_of_buffer _); [|discriminate].
    destruct (touch_name _); [intros [= <- _ _]; reflexivity | apply IH].
Qed.

Lemma find_touch_device_locates w name p :
  names_fit w ->
  exists p', find_touch_device w name p = Some (0%Z, p', locate_spec w common_paths) /\
             p_fds p' = p_fds p.
Proof.
  intros Fit. destruct (probe_spec w common_paths name p Fit) as (p' & E & F).
  exists p'. split; [|exact F]. unfold find_touch_device. rewrite E.
  do 3 f_equal. apply snprintf_s_spec.
  destruct (locate_spec_in w common_paths) as [-> | H]; [apply Nat.ltb_lt; reflexivity|].
  repeat destruct H as [<- | H]; [apply Nat.ltb_lt; reflexivity ..|contradiction].
Qed.

(** C5: when the device names fit the array, find_touch_device returns
    0, leaves in [device_path] the first candidate whose name is a touch
    name (or /dev/input/event1 when none is), and closes every
    descriptor it opened. *)
Theorem find_touch_device_spec w name p :
  names_fit w ->
  exists p', find_touch_device w name p = Some (0%Z, p', locate_spec w common_paths) /\
             p_fds p' = p_fds p.
Proof. apply find_touch_device_locates. Qed.

(** C19: the "touchscreen" test of line 50 is redundant: a name contains
    "touchscreen" only if it contains "touch", so the device is chosen on
    "touch", "Touch" or "elan" alone. *)
Theorem touch_name_redundant n :
  touch_name n = contains n "touch"%string || contains n "Touch"%string || contains n "elan"%string.
Proof.
  unfold touch_name.
  destruct (contains n "touch") eqn:T; [reflexivity|].
  assert (contains n "touchscreen" = false) as ->;
    [|destruct (contains n "Touch"), (contains n "elan"); reflexivity].
  destruct (contains n "touchscreen") eqn:TS; [|reflexivity].
  rewrite <- T. symmetry. apply (contains_app_l n "touch" "screen"). exact TS.
Qed.

(** C10: a device at /dev/input/event0 whose name has 256 characters or
    more leaves [name] without a terminating NUL, and the [strstr] calls
    read past the end of the array: the behaviour is undefined. *)
Theorem long_name_undefined w n name p :
  w "/dev/input/event0"%string = Some (mk_device (Some n)) ->
  (NAME_LEN <= String.length n)%nat ->
  str_forall (fun a => negb (Ascii.eqb a zero)) n = true ->
  length name = NAME_LEN ->
  find_touch_device w name p = None.
Proof.
  intros W L N Ln. unfold find_touch_device, probe, common_paths. rewrite W. simpl.
  assert (c_string_of_buffer (ioctl_name n name) = None) as ->; [|reflexivity].
  apply c_string_of_buffer_no_nul. unfold ioctl_name.
  rewrite length_app, length_list_ascii_of_string. simpl.
  rewrite Nat.min_r by lia. rewrite skipn_all2 by lia. rewrite app_nil_r.
  rewrite firstn_app, length_list_ascii_of_string.
  replace (NAME_LEN - String.length n)%nat with 0%nat by lia. rewrite app_nil_r.
  apply Forall_take. apply str_forall_Forall. exact N.
Qed.

(** ** Witnesses *)

(** A Kindle-like set of devices: keys at event0, the touch panel at
    event2. *)
Definition kindle_world : world :=
  world_of [("/dev/input/event0"%string, mk_device (Some "gpio-keys"%string));
            ("/dev/input/event1"%string, mk_device None);
            ("/dev/input/event2"%string, mk_device (Some "elan-touchscreen"%string))].

Definition start_proc : proc := mk_proc {[0%Z; 1%Z; 2%Z]} [].

Definition blank_name : list ascii := List.repeat zero NAME_LEN.

Lemma find_touch_device_spec_witness :
  names_fit kindle_world /\ locate_spec kindle_world common_paths = "/dev/input/event2"%string /\
  exists p', find_touch_device kindle_world blank_name start_proc =
               Some (0%Z, p', locate_spec kindle_world common_paths) /\
             p_fds p' = p_fds start_proc.
Proof.
  assert (Fit : names_fit kindle_world) by (apply names_fit_of; vm_compute; reflexivity).
  split; [exact Fit|]. split; [vm_compute; reflexivity|].
  apply find_touch_device_spec. exact Fit.
Defined.

(** A device whose name is 300 characters long. *)
Definition long_name : string := string_of_list_ascii (List.repeat "a"%char 300).

Definition long_world : world := world_of [("/dev/input/event0"%string, mk_device (Some long_name))].

Lemma long_name_undefined_witness :
  long_world "/dev/input/event0"%string = Some (mk_device (Some long_name)) /\
  (NAME_LEN <= String.length long_name)%nat /\
  str_forall (fun a => negb (Ascii.eqb a zero)) long_name = true /\
  length blank_name = NAME_LEN /\
  find_touch_device long_world blank_name start_proc = None.
Proof.
  split; [vm_compute; reflexivity|]. split; [vm_compute; lia|].
  split; [vm_compute; reflexivity|]. split; [vm_compute; reflexivity|].
  apply (long_name_undefined long_world long_name); [vm_compute; reflexivity | vm_compute; lia |
                              vm_compute; reflexivity | vm_compute; reflexivity].
Defined.

End Locate.
