(* ===== verification/Main.v ===== *)
(** * main: argument handling and the composition of the two components

    Lines 136-151 of touch_reader.c.  With an argument, [argv[1]] is
    copied into [char device_path[256]] with [snprintf]; without one,
    find_touch_device fills it, and a non-zero return would print "Failed
    to find touch device" and exit 1.  Then [read_touch_events] runs on
    the path and its return value is the exit status.

    [main] is written against the [Locator] interface: what main needs of
    the device lookup is that a successful lookup returns 0, and that when
    the names fit it succeeds with a candidate path or the default and no
    descriptor leaked.  [find_touch_device] discharges that
    interface (under [names_fit]); the theorems about [main] are proved
    from the interface alone.  The last part runs the scenarios of the
    spec's section 8 through the executable scheduler of ReadLoop.v on the
    32-bit ARM layout. *)

From Stdlib Require Import ZArith List String Ascii Lia.
From coqutil Require Import Byte.
From stdpp Require Import base decidable list gmap.
From S2P Require Import Prelude CString InputEvent Reader ReadLoop Locator.

Module Main.
Import CStr Ev Touch Loop Locate.

(** ** The interface main relies on *)

Class Locator := {
  locate : world -> list ascii -> proc -> option (Z * proc * string);
  locate_returns_zero : forall w name p r p' path,
    locate w name p = Some (r, p', path) -> r = 0%Z;
  locate_contract : forall w name p, names_fit w ->
    exists p' path, locate w name p = Some (0%Z, p', path) /\ p_fds p' = p_fds p /\
                    (path = default_path \/ In path common_paths)
}.

Lemma find_touch_device_contract w name p :
  names_fit w ->
  exists p' path, find_touch_device w name p = Some (0%Z, p', path) /\ p_fds p' = p_fds p /\
                  (path = default_path \/ In path common_paths).
Proof.
  intros Fit. destruct (find_touch_device_locates w name p Fit) as (p' & E & F).
  exists p', (locate_spec w common_paths). split; [exact E|]. split; [exact F|].
  apply locate_spec_in.
Qed.

#[export] Instance touch_locator : Locator :=
  {| locate := find_touch_device;
     locate_returns_zero := fun w name p => probe_returns_zero w common_paths name p;
     locate_contract := find_touch_device_contract |}.

(** ** main *)

(** Where main goes after choosing the path: [read_touch_events] on it,
    the failure exit of lines 145-146, or undefined behaviour in the
    lookup. *)
Inductive start :=
  | StartRead (path : string) (p : proc)
  | StartFail (p : proc)
  | StartUndefined.

Definition main_start `{Locator} (args : list string) (w : world) (name : list ascii)
    (p : proc) : start :=
  match args with
  | _ :: arg1 :: _ => StartRead (snprintf_s PATH_SIZE arg1) p
  | _ =>
      match locate w name p with
      | Some (r, p', path) => if (r =? 0)%Z then StartRead path p' else StartFail p'
      | None => StartUndefined
      end
  end.

(** ** Theorems *)

Lemma common_path_short path :
  path = default_path \/ In path common_paths -> (String.length path < PATH_SIZE)%nat.
Proof.
  intros [-> | H]; [apply Nat.ltb_lt; reflexivity|].
  repeat destruct H as [<- | H]; [apply Nat.ltb_lt; reflexivity ..|contradiction].
Qed.

(** C20: without an argument main never takes the "Failed to find touch
    device" exit of lines 144-147, whatever the devices: the lookup either
    returns 0 or is undefined (C10).  When the device names fit [name],
    main reaches read_touch_events with a candidate path or the default,
    and no descriptor leaked. *)
Theorem main_never_fails `{Locator} args w name p :
  (length args <= 1)%nat ->
  (forall p0, main_start args w name p <> StartFail p0) /\
  (names_fit w ->
   exists path p', main_start args w name p = StartRead path p' /\ p_fds p' = p_fds p /\
                   (path = default_path \/ In path common_paths)).
Proof.
  intros L. assert (match args with _ :: _ :: _ => False | _ => True end) as A
    by (destruct args as [|a [|b args]]; simpl in L; auto; lia).
  unfold main_start. split.
  - intros p0. destruct args as [|a [|b args]]; [| |contradiction];
      destruct (locate w name p) as [[[r p'] path]|] eqn:E; try discriminate;
      rewrite (locate_returns_zero _ _ _ _ _ _ E); discriminate.
  - intros Fit. destruct (locate_contract w name p Fit) as (p' & path & E & F & In').
    exists path, p'. destruct args as [|a [|b args]]; [| |contradiction]; rewrite E; auto.
Qed.

(** C21: the path main hands to read_touch_events always fits
    [device_path] with its NUL, and an argument shorter than the array is
    passed unchanged. *)
Theorem main_path_fits `{Locator} args w name p path p' :
  names_fit w -> main_start args w name p = StartRead path p' ->
  (String.length path < PATH_SIZE)%nat /\
  (forall prog arg1 rest, args = prog :: arg1 :: rest ->
     (String.length arg1 < PATH_SIZE)%nat -> path = arg1).
Proof.
  intros Fit. unfold main_start.
  destruct args as [|prog [|arg1 rest]].
  1, 2: destruct (locate_contract w name p Fit) as (p0 & path0 & -> & _ & In');
    simpl; intros [= <- _]; split; [apply common_path_short; exact In' | discriminate].
  intros [= <- _]. destruct (snprintf_s_spec PATH_SIZE arg1) as (L & _ & Id). split.
  - unfold PATH_SIZE in *. lia.
  - intros ? ? ? [= _ <- _] Hl. apply Id. exact Hl.
Qed.

(** ** Witnesses *)

Lemma main_never_fails_witness :
  (length ["touch_reader"%string] <= 1)%nat /\
  (forall p0, main_start ["touch_reader"%string] kindle_world blank_name start_proc <> StartFail p0) /\
  (names_fit kindle_world ->
   exists path p', main_start ["touch_reader"%string] kindle_world blank_name start_proc =
                     StartRead path p' /\ p_fds p' = p_fds start_proc /\
                   (path = default_path \/ In path common_paths)).
Proof.
  split; [simpl; lia|].
  apply main_never_fails. simpl. lia.
Defined.

Definition arg_args : list string := ["touch_reader"%string; "/dev/input/event3"%string].

Lemma main_path_fits_witness :
  names_fit kindle_world /\
  main_start arg_args kindle_world blank_name start_proc = StartRead "/dev/input/event3"%string start_proc /\
  (String.length "/dev/input/event3"%string < PATH_SIZE)%nat /\
  (forall prog arg1 rest, arg_args = prog :: arg1 :: rest ->
     (String.length arg1 < PATH_SIZE)%nat -> "/dev/input/event3"%string = arg1).
Proof.
  assert (Fit : names_fit kindle_world) by (apply names_fit_of; vm_compute; reflexivity).
  split; [exact Fit|]. split; [vm_compute; reflexivity|].
  apply (main_path_fits arg_args kindle_world blank_name start_proc _ start_proc);
    [exact Fit | vm_compute; reflexivity].
Defined.

(** ** The scenarios of the spec's section 8, on the 32-bit ARM layout *)

Section Scenarios.
#[local] Existing Instance abi_arm32.

(** Open /dev/input/event1, install the handlers, read [evs] in full. *)
Definition run_stream (evs : list input_event) : option config :=
  exec false default_path ([AOpenOk; AProgram] ++ flat_map read_actions evs) init_config.

Definition stdout_of (r : option config) : option (list string) := option_map c_stdout r.
Definition status_of (r : option config) : option pc := option_map c_pc r.

(** ABS_X = 100, ABS_Y = 200, BTN_TOUCH = 1, SYN_REPORT prints "100,200"
    and returns 0. *)
Example scenario_press :
  stdout_of (run_stream press_stream) = Some [coord_line 100 200] /\
  status_of (run_stream press_stream) = Some (Exited 0) /\
  parse_coord_line (coord_line 100 200) = Some (100%Z, 200%Z).
Proof. vm_compute. auto. Qed.

(** ABS_MT_POSITION_X = 50, ABS_MT_POSITION_Y = 75, SYN_REPORT with no
    BTN_TOUCH prints "50,75" (the release-style output). *)
Example scenario_release :
  stdout_of (run_stream [mk_event 0 0 EV_ABS ABS_MT_POSITION_X 50;
                         mk_event 0 0 EV_ABS ABS_MT_POSITION_Y 75;
                         mk_event 0 0 EV_SYN SYN_REPORT 0]) = Some [coord_line 50 75].
Proof. vm_compute. reflexivity. Qed.

(** Only X known at SYN_REPORT: nothing is printed and the loop goes on. *)
Example scenario_partial :
  stdout_of (run_stream [mk_event 0 0 EV_ABS ABS_X 10; mk_event 0 0 EV_SYN SYN_REPORT 0]) = Some [] /\
  status_of (run_stream [mk_event 0 0 EV_ABS ABS_X 10; mk_event 0 0 EV_SYN SYN_REPORT 0]) = Some AtCheck.
Proof. vm_compute. auto. Qed.

(** The device cannot be opened (ENOENT): status 1, no stdout line. *)
Example scenario_open_fails :
  option_map (fun c => (c_pc c, c_stdout c)) (exec false default_path [AOpenFail 2] init_config) =
  Some (Exited 1, []).
Proof. vm_compute. reflexivity. Qed.

End Scenarios.

End Main.
